(** * paragon_ecosystem, C binding and benchmark driver

    A shallow embedding of [src/c/paragon.c] (capability resolver, tolerant
    handle decoder, construction facade) and [src/c/bench.c] (deterministic
    input generator, tolerant vector decoder, benchmark engine), with the
    properties of the specification stated over it.

    Conventions.
    - A C string is a [string]; [EmptyString] plays the terminating NUL.
      A [char*] that may be [NULL] is an [option string].
    - A pointer into a buffer is the suffix that starts at it.  Two
      pointers into the same buffer compare by the lengths of their
      suffixes: the longer suffix is the smaller address.
    - [double] is the kernel's binary64 [float]; [unsigned] is 32 bits and
      [long long] 64 bits (the LP64 targets [dlfcn.h] exists on).
    - The loaded library is a black box: its entry points are functions
      of a [World], every call through a function pointer is recorded as
      an [event].  A call through a null pointer is a [Fault].
    - Memory is there when asked for ([malloc] and [realloc] succeed),
      and every call into the library returns.
    - Of the console output only the values handed to [printf] for a
      case are kept, as a [report]. *)

From Stdlib Require Import ZArith List String Ascii Bool Lia.
From Stdlib Require Import Floats DecimalString DecimalPos DecimalN.
Import ListNotations.

Local Open Scope string_scope.
Local Open Scope Z_scope.

(** ** The C library functions the sources call *)

Module CStr.

Definition code (c : ascii) : Z := Z.of_N (N_of_ascii c).

(** [isspace] in the C locale: space, \t \n \v \f \r. *)
Definition isspace (c : ascii) : bool :=
  (code c =? 32) || ((9 <=? code c) && (code c <=? 13)).

Definition isdigit (c : ascii) : bool :=
  (48 <=? code c) && (code c <=? 57).

Definition isxdigit (c : ascii) : bool :=
  isdigit c || ((65 <=? code c) && (code c <=? 70))
            || ((97 <=? code c) && (code c <=? 102)).

Definition isalpha (c : ascii) : bool :=
  ((65 <=? code c) && (code c <=? 90)) || ((97 <=? code c) && (code c <=? 122)).

Definition tolower (c : ascii) : ascii :=
  if (65 <=? code c) && (code c <=? 90)
  then ascii_of_N (Z.to_N (code c + 32)) else c.

Definition digit_val (c : ascii) : Z := code c - 48.

Definition xdigit_val (c : ascii) : Z :=
  if isdigit c then code c - 48
  else if 97 <=? code c then code c - 87 else code c - 55.

Definition strlen (s : string) : nat := String.length s.

(** Pointer comparisons inside one buffer. *)
Definition ptr_eq (p q : string) : bool := (strlen p =? strlen q)%nat.
Definition ptr_lt (p q : string) : bool := (strlen q <? strlen p)%nat.
Definition ptr_le (p q : string) : bool := (strlen q <=? strlen p)%nat.

(** [strchr s c]: the first occurrence of [c], as a pointer. *)
Fixpoint strchr (s : string) (c : ascii) : option string :=
  match s with
  | EmptyString => None
  | String a r => if Ascii.eqb a c then Some s else strchr r c
  end.

(** [strrchr s c]: the last occurrence of [c]. *)
Fixpoint strrchr (s : string) (c : ascii) : option string :=
  match s with
  | EmptyString => None
  | String a r =>
      match strrchr r c with
      | Some q => Some q
      | None => if Ascii.eqb a c then Some s else None
      end
  end.

Fixpoint starts_with (needle s : string) : bool :=
  match needle, s with
  | EmptyString, _ => true
  | String a n', String b s' => Ascii.eqb a b && starts_with n' s'
  | String _ _, EmptyString => false
  end.

(** [strstr hay needle]: the first occurrence of [needle]. *)
Fixpoint strstr (hay needle : string) : option string :=
  if starts_with needle hay then Some hay
  else match hay with
       | EmptyString => None
       | String _ r => strstr r needle
       end.

Fixpoint skip_space (s : string) : string :=
  match s with
  | String c r => if isspace c then skip_space r else s
  | EmptyString => s
  end.

(** An optional sign: [true] for a minus. *)
Definition take_sign (s : string) : bool * string :=
  match s with
  | String c r =>
      if Ascii.eqb c "-" then (true, r)
      else if Ascii.eqb c "+" then (false, r) else (false, s)
  | EmptyString => (false, s)
  end.

(** A run of digits in [base] (10 or 16): its value, the number of
    digits read, and the pointer after it. *)
Fixpoint take_digits (hex : bool) (acc : Z) (cnt : nat) (s : string)
  : Z * nat * string :=
  match s with
  | String c r =>
      if hex then
        if isxdigit c then take_digits hex (acc * 16 + xdigit_val c) (S cnt) r
        else (acc, cnt, s)
      else
        if isdigit c then take_digits hex (acc * 10 + digit_val c) (S cnt) r
        else (acc, cnt, s)
  | EmptyString => (acc, cnt, s)
  end.

Definition LLONG_MAX : Z := 2 ^ 63 - 1.
Definition LLONG_MIN : Z := - 2 ^ 63.

Definition clamp_ll (v : Z) : Z :=
  if v <? LLONG_MIN then LLONG_MIN
  else if LLONG_MAX <? v then LLONG_MAX else v.

(** [strtoll nptr &endp 10]: leading white space, an optional sign, a
    non-empty run of decimal digits.  Without digits nothing is
    converted: the value is 0 and [endp] is [nptr].  A value out of
    range is clamped. *)
Definition strtoll (nptr : string) : Z * string :=
  let '(neg, s1) := take_sign (skip_space nptr) in
  let '(m, cnt, e) := take_digits false 0 0 s1 in
  match cnt with
  | O => (0, nptr)
  | S _ => (clamp_ll (if neg then - m else m), e)
  end.

(** [snprintf buf n "%s..." ...] keeps at most [n - 1] characters. *)
Fixpoint truncate (n : nat) (s : string) : string :=
  match n, s with
  | S n', String c r => String c (truncate n' r)
  | _, _ => EmptyString
  end.

Definition snprintf (n : nat) (formatted : string) : string :=
  truncate (n - 1) formatted.

(** *** Text to [double] and back *)

(** Prefix test that ignores the case of [s]; [lower] is in lower case.
    The pointer after the prefix. *)
Fixpoint strip_ci (lower s : string) : option string :=
  match lower, s with
  | EmptyString, _ => Some s
  | String a l', String b s' =>
      if Ascii.eqb a (tolower b) then strip_ci l' s' else None
  | String _ _, EmptyString => None
  end.

Definition signed (neg : bool) (m : Z) : Z := if neg then - m else m.

(** An integer as a [double], rounded to nearest, ties to even. *)
Definition Z2double (z : Z) : float :=
  SF2Prim (binary_normalize prec emax z 0 false).

(** The [double] nearest to [m * 2^e2]. *)
Definition bin2double (neg : bool) (m e2 : Z) : float :=
  SF2Prim (binary_normalize prec emax (signed neg m) e2 neg).

(** The [double] nearest to [m * 10^e10]: one correctly rounded
    operation on the exact integers. *)
Definition dec2double (neg : bool) (m e10 : Z) : float :=
  match m with
  | Zpos p =>
      if 0 <=? e10
      then SF2Prim (binary_normalize prec emax (signed neg (Zpos p * 10 ^ e10)) 0 neg)
      else SF2Prim (SFdiv prec emax (S754_finite neg p 0)
                          (S754_finite false (Z.to_pos (10 ^ (- e10))) 0))
  | _ => SF2Prim (S754_zero neg)
  end.

(** Digits with an optional radix point, at least one digit in all:
    the digits as one integer, the number of digits after the point,
    the pointer after the mantissa. *)
Definition parse_mantissa (hex : bool) (s : string) : option (Z * nat * string) :=
  let '(m1, c1, r1) := take_digits hex 0 0 s in
  let '(m, c2, r2) :=
    match r1 with
    | String c r => if Ascii.eqb c "." then take_digits hex m1 0 r else (m1, O, r1)
    | EmptyString => (m1, O, r1)
    end in
  match (c1 + c2)%nat with
  | O => None
  | S _ => Some (m, c2, r2)
  end.

(** An exponent part: the marker ([e] or [p], either case), an
    optional sign and at least one decimal digit; otherwise nothing
    is consumed. *)
Definition take_exponent (marker : ascii) (s : string) : Z * string :=
  match s with
  | String c r =>
      if Ascii.eqb (tolower c) marker then
        let '(neg, s1) := take_sign r in
        let '(v, cnt, e) := take_digits false 0 0 s1 in
        match cnt with
        | O => (0, s)
        | S _ => (signed neg v, e)
        end
      else (0, s)
  | EmptyString => (0, s)
  end.

Fixpoint skip_nchar (s : string) : string :=
  match s with
  | String c r =>
      if isdigit c || isalpha c || Ascii.eqb c "_" then skip_nchar r else s
  | EmptyString => s
  end.

(** After [nan]: an optional parenthesised character sequence. *)
Definition nan_payload (s : string) : string :=
  match s with
  | String c r =>
      if Ascii.eqb c "(" then
        match skip_nchar r with
        | String d r' => if Ascii.eqb d ")" then r' else s
        | EmptyString => s
        end
      else s
  | EmptyString => s
  end.

(** [strtod nptr &endp]: white space, an optional sign, then
    [inf]/[infinity], [nan], a hexadecimal or a decimal floating
    constant; the result is correctly rounded.  Without a conversion
    the value is 0 and [endp] is [nptr]. *)
Definition strtod (nptr : string) : float * string :=
  let '(neg, s1) := take_sign (skip_space nptr) in
  match strip_ci "inf" s1 with
  | Some r =>
      (if neg then neg_infinity else infinity,
       match strip_ci "inity" r with Some r' => r' | None => r end)
  | None =>
  match strip_ci "nan" s1 with
  | Some r => (nan, nan_payload r)
  | None =>
  match match strip_ci "0x" s1 with
        | Some r => parse_mantissa true r
        | None => None
        end with
  | Some (m, c2, r) =>
      let '(e, r') := take_exponent "p" r in
      (bin2double neg m (e - 4 * Z.of_nat c2), r')
  | None =>
  match parse_mantissa false s1 with
  | Some (m, c2, r) =>
      let '(e, r') := take_exponent "e" r in
      (dec2double neg m (e - Z.of_nat c2), r')
  | None => (0%float, nptr)
  end end end end.

(** [printf "%d"]. *)
Definition fmt_uint (n : Z) : string := NilZero.string_of_uint (N.to_uint (Z.to_N n)).
Definition fmt_d (n : Z) : string :=
  if n <? 0 then "-" ++ fmt_uint (- n) else fmt_uint n.

Fixpoint zeros (n : nat) : string :=
  match n with O => "" | S n' => String "0" (zeros n') end.
Definition zero_pad (w : nat) (s : string) : string :=
  zeros (w - strlen s) ++ s.

Definition round_half_even (num den : Z) : Z :=
  let q := num / den in
  let r := num mod den in
  if 2 * r <? den then q
  else if den <? 2 * r then q + 1
  else if Z.even q then q else q + 1.

(** [printf "%.6f"]: the exact value of the [double], rounded to six
    decimals (to nearest, ties to even). *)
Definition fmt_f6 (x : float) : string :=
  let sign (s : bool) := if s then "-" else "" in
  match Prim2SF x with
  | S754_zero s => sign s ++ "0.000000"
  | S754_infinity s => sign s ++ "inf"
  | S754_nan => "nan"
  | S754_finite s m e =>
      let scaled :=
        if 0 <=? e then Zpos m * 2 ^ e * 10 ^ 6
        else round_half_even (Zpos m * 10 ^ 6) (2 ^ (- e)) in
      sign s ++ fmt_uint (scaled / 10 ^ 6) ++ "."
             ++ zero_pad 6 (fmt_uint (scaled mod 10 ^ 6))
  end.

End CStr.

Import CStr.

(** A C [for (i = lo; i < lo + n; i++) body] over a loop state. *)
Definition for_loop {S : Type} (lo n : nat) (body : nat -> S -> S) (init : S) : S :=
  fold_left (fun st i => body i st) (seq lo n) init.

(** The double quote, and a JSON string literal. *)
Definition dq : string := String (ascii_of_nat 34) "".
Definition quoted (s : string) : string := dq ++ s ++ dq.

(** ** bench.c: the JSON builders *)

Module Gen.

(** [append(&b, &cap, &len, fmt, ...)]: the formatted piece is added at
    the end of the growing buffer.  (The piece goes through a 512 byte
    scratch array; every piece formatted in this file is shorter.) *)
Definition append (b piece : string) : string := b ++ piece.

Definition json_layers (dims : list Z) (ndims : nat) : string :=
  let b := append "" "[" in
  let b := for_loop 0 ndims (fun i b =>
             let b := if (i =? 0)%nat then b else append b "," in
             append b ("{" ++ quoted "Width" ++ ":" ++ fmt_d (nth i dims 0)
                           ++ "," ++ quoted "Height" ++ ":1}")) b in
  append b "]".

Definition json_activs (ndims : nat) : string :=
  let b := append "" ("[" ++ quoted "linear") in
  let b := for_loop 1 (ndims - 1 - 1) (fun _ b => append b ("," ++ quoted "relu")) b in
  append b ("," ++ quoted "softmax" ++ "]").

Definition json_trainable (ndims : nat) : string :=
  let b := append "" "[" in
  let b := for_loop 0 ndims (fun i b =>
             append b (if (i =? 0)%nat then "true" else ",true")) b in
  append b "]".

(** One step of [s = s*1664525u + 1013904223u] on a 32-bit [unsigned]. *)
Definition lcg_step (s : Z) : Z := (s * 1664525 + 1013904223) mod 2 ^ 32.

(** [(double)s / 4294967295.0]. *)
Definition normalize (s : Z) : float := (Z2double s / 4294967295)%float.

(** The loop of [json_fixed784]: generator state, the values [v] in
    the order they are produced, and the text buffer. *)
Definition fixed784_body (i : nat) (st : Z * list float * string)
  : Z * list float * string :=
  let '(s, vs, b) := st in
  let s := lcg_step s in
  let v := normalize s in
  (s, (vs ++ [v])%list,
   append b ((if (i =? 0)%nat then "" else ",") ++ fmt_f6 v)).

Definition fixed784_loop : Z * list float * string :=
  for_loop 0 784 fixed784_body (123, [], append "" "[[").

Definition json_fixed784 : string := append (snd fixed784_loop) "]]".

(** The numeric vector behind the text. *)
Definition fixed784_values : list float := snd (fst fixed784_loop).

End Gen.

(** ** paragon.c and bench.c: the tolerant response decoder *)

Module Decode.

Definition keys : list string :=
  map quoted ["handle"; "Handle"; "id"; "ID";
              "network_handle"; "NetworkHandle"; "h"; "H"].

(** The characters the inner [while] steps over: colon, space, tab
    and the double quote. *)
Definition is_sep (c : ascii) : bool :=
  Ascii.eqb c ":" || Ascii.eqb c " " || (code c =? 9) || (code c =? 34).

Fixpoint skip_sep (p : string) : string :=
  match p with
  | String c r => if is_sep c then skip_sep r else p
  | EmptyString => p
  end.

(** The body of the inner loop for one key: [None] is [continue]. *)
Definition try_key (hay key : string) : option Z :=
  match strstr hay key with
  | None => None
  | Some p =>
      match strchr p ":" with
      | None => None
      | Some p =>
          let p := skip_sep p in
          let '(n, e) := strtoll p in
          if ptr_eq e p then None else Some n
      end
  end.

(** [for(int i=0; keys[i]; ++i)]: the first key that yields a number. *)
Fixpoint key_loop (hay : string) (ks : list string) : option Z :=
  match ks with
  | [] => None
  | k :: ks' =>
      match try_key hay k with
      | Some n => Some n
      | None => key_loop hay ks'
      end
  end.

(** [for(int pass=0; pass<2; ++pass)], [left] passes still to run. *)
Fixpoint pass_loop (left pass : nat) (txt : string) : Z :=
  match left with
  | O => -1
  | S left' =>
      match (if (pass =? 1)%nat then strstr txt (quoted "result") else Some txt) with
      | None => -1
      | Some hay =>
          match key_loop hay keys with
          | Some n => n
          | None => pass_loop left' (S pass) txt
          end
      end
  end.

Definition paragon_parse_handle (txt : option string) : Z :=
  match txt with
  | None => -1
  | Some txt =>
      let '(v, endp) := strtoll txt in
      match endp with
      | EmptyString => v
      | String _ _ => pass_loop 2 0 txt
      end
  end.

(** The loop of [parse_vector_tolerant]: [s] is the scan pointer, [q]
    the pointer to the last bracket, [room] is [maxn - n], [out] the
    cells written so far.  Every turn moves [s] forward, so [fuel] at
    least the length of [s] is never used up. *)
Fixpoint scan_loop (fuel : nat) (s q : string) (room : nat) (out : list float)
  : list float :=
  match fuel with
  | O => out
  | S fuel' =>
      if ptr_lt s q && (0 <? room)%nat then
        let '(v, e) := strtod s in
        if ptr_eq e s
        then scan_loop fuel' (match s with String _ r => r | EmptyString => s end)
                       q room out
        else scan_loop fuel' e q (room - 1) (out ++ [v])%list
      else out
  end.

(** The values written to [out[0..n-1]]; the returned count is their
    number. *)
Definition parse_vector_tolerant (txt : option string) (maxn : Z) : list float :=
  match txt with
  | None => []
  | Some txt =>
      match strchr txt "[", strrchr txt "]" with
      | Some p, Some q =>
          if ptr_le q p then []
          else match p with
               | String _ s => scan_loop (strlen s) s q (Z.to_nat maxn) []
               | EmptyString => []
               end
      | _, _ => []
      end
  end.

End Decode.

Import Gen Decode.

(** ** The outside world: the dynamic loader, the library, the clock *)

Definition fnptr := N.
Definition so_handle := N.

Record World := {
  lib_state : Type;
  (** [dlopen path RTLD_NOW|RTLD_GLOBAL]; [None] as path is [dlopen(NULL)]. *)
  dlopen : option string -> option so_handle;
  dlsym : so_handle -> string -> option fnptr;
  (** What a call through a resolved pointer does: a reply ([NULL] or a
      string) and the library's next state. *)
  exec_new5 : fnptr -> string -> string -> string -> bool -> bool ->
              lib_state -> option string * lib_state;
  exec_new3 : fnptr -> string -> string -> string ->
              lib_state -> option string * lib_state;
  exec_call : fnptr -> Z -> string -> string ->
              lib_state -> option string * lib_state;
  (** The [k]-th reading of [CLOCK_MONOTONIC]: [tv_sec] and [tv_nsec]. *)
  clock_gettime : nat -> Z * Z
}.

(** Calls that leave the program through a function pointer. *)
Inductive event : Type :=
| EvNew5 (f : fnptr) (layers activs trainable : string) (use_gpu expose : bool)
| EvNew3 (f : fnptr) (layers activs trainable : string)
| EvCall (f : fnptr) (handle : Z) (method args : string).

(** ** paragon.h: the capability table *)

Record ParagonAPI := {
  so : option so_handle;
  New5 : option fnptr;
  New3 : option fnptr;
  Call : option fnptr
}.

Module Api.
Section WithWorld.

Variable W : World.

Record state := { lib : lib_state W; ticks : nat }.

(** The result of running a piece of the program: a value and the next
    state, or a jump through a [NULL] function pointer. *)
Inductive outcome (A : Type) : Type :=
| Done (a : A) (st : state)
| Fault.
Arguments Done {A} a st.
Arguments Fault {A}.

(** State passing, with the calls made as output. *)
Definition M (A : Type) : Type := state -> list event * outcome A.

Definition ret {A} (a : A) : M A := fun st => ([], Done a st).

Definition bind {A B} (m : M A) (k : A -> M B) : M B :=
  fun st =>
    match m st with
    | (ev, Done a st') => let '(ev', o) := k a st' in (ev ++ ev', o)%list
    | (ev, Fault) => (ev, Fault)
    end.

Notation "x <- m ;; k" := (bind m (fun x => k))
  (at level 61, m at next level, right associativity).
Notation "m ;;; k" := (bind m (fun _ => k))
  (at level 61, right associativity).

Definition invoke5 (f : fnptr) (l a t : string) (g e : bool) : M (option string) :=
  fun st =>
    let '(r, lib') := exec_new5 W f l a t g e (lib st) in
    ([EvNew5 f l a t g e], Done r {| lib := lib'; ticks := ticks st |}).

Definition invoke3 (f : fnptr) (l a t : string) : M (option string) :=
  fun st =>
    let '(r, lib') := exec_new3 W f l a t (lib st) in
    ([EvNew3 f l a t], Done r {| lib := lib'; ticks := ticks st |}).

Definition invoke_call (f : fnptr) (h : Z) (method args : string) : M (option string) :=
  fun st =>
    let '(r, lib') := exec_call W f h method args (lib st) in
    ([EvCall f h method args], Done r {| lib := lib'; ticks := ticks st |}).

(** [api->Call(h, method, args)] with no test of the pointer. *)
Definition call_unchecked (api : ParagonAPI) (h : Z) (method args : string)
  : M (option string) :=
  match Call api with
  | Some f => invoke_call f h method args
  | None => fun _ => ([], Fault)
  end.

(** *** paragon.c *)

Definition must_dlsym_try (so : option so_handle) (name : string) : option fnptr :=
  match so with
  | None => None
  | Some h => dlsym W h name
  end.

Fixpoint resolve_any (so : option so_handle) (names : list string) : option fnptr :=
  match names with
  | [] => None
  | n :: names' =>
      match must_dlsym_try so n with
      | Some p => Some p
      | None => resolve_any so names'
      end
  end.

Definition NEW5 : list string :=
  ["Paragon_NewNetworkFloat32"; "Teleport_NewNetworkFloat32"; "NewNetworkFloat32"].
Definition NEW3 : list string :=
  ["Paragon_NewNetworkFloat32_JSON"; "Teleport_NewNetworkFloat32_JSON";
   "NewNetworkFloat32_JSON"].
Definition CALLN : list string :=
  ["Paragon_Call"; "Teleport_Call"; "Call"].

(** The table after [memset(api, 0, sizeof *api)]. *)
Definition api_zero : ParagonAPI :=
  {| so := None; New5 := None; New3 := None; Call := None |}.

(** [so_path && *so_path ? so_path : NULL] *)
Definition effective_path (so_path : option string) : option string :=
  match so_path with
  | Some (String c r) => Some (String c r)
  | _ => None
  end.

(** The returned status and the table written through [api]. *)
Definition paragon_load (so_path : option string) : Z * ParagonAPI :=
  match dlopen W (effective_path so_path) with
  | None => (1, api_zero)
  | Some h =>
      (1, {| so := Some h;
             New5 := resolve_any (Some h) NEW5;
             New3 := resolve_any (Some h) NEW3;
             Call := resolve_any (Some h) CALLN |})
  end.

Definition paragon_unload (api : ParagonAPI) : ParagonAPI := api_zero.

Definition paragon_call0 (api : ParagonAPI) (h : Z) (method : string)
  : M (option string) :=
  match Call api with
  | None => ret None
  | Some f => invoke_call f h method "[]"
  end.

Definition json_bool (b : bool) : string := if b then "true" else "false".

Definition paragon_new_net_any (api : ParagonAPI)
    (layers_json activs_json trainable_json : string)
    (prefer_gpu expose_methods_json : bool) : M (option string) :=
  match New5 api with
  | Some f => invoke5 f layers_json activs_json trainable_json
                      prefer_gpu expose_methods_json
  | None =>
  match New3 api with
  | Some f => invoke3 f layers_json activs_json trainable_json
  | None =>
  match Call api with
  | Some f =>
      let n := (strlen layers_json + strlen activs_json
                + strlen trainable_json + 64)%nat in
      let args := snprintf n
                    ("[" ++ layers_json ++ "," ++ activs_json ++ ","
                         ++ trainable_json ++ "," ++ json_bool prefer_gpu ++ ","
                         ++ json_bool expose_methods_json ++ "]") in
      invoke_call f 0 "NewNetworkFloat32" args
  | None => ret None
  end end end.

(** *** bench.c *)

(** [ts.tv_sec*1000.0 + ts.tv_nsec/1e6] *)
Definition ms_of (ts : Z * Z) : float :=
  (Z2double (fst ts) * 1000 + Z2double (snd ts) / 1000000)%float.

Definition now_ms : M float :=
  fun st =>
    ([], Done (ms_of (clock_gettime W (ticks st)))
              {| lib := lib st; ticks := S (ticks st) |}).

Definition try_gpu_enable (api : ParagonAPI) (h : Z) : M unit :=
  match Call api with
  | None => ret tt
  | Some _ =>
      paragon_call0 api h "SetWebGPUNative" ;;;
      paragon_call0 api h "WebGPUNativeOn" ;;;
      call_unchecked api h "Configure" ("[{" ++ quoted "WebGPUNative" ++ ":true}]") ;;;
      call_unchecked api h "SetOptions" ("[{" ++ quoted "WebGPUNative" ++ ":true}]") ;;;
      call_unchecked api h "SetField" ("[" ++ quoted "WebGPUNative" ++ ",true]") ;;;
      call_unchecked api h "Call" ("[" ++ quoted "SetWebGPUNative" ++ ",[true]]") ;;;
      ret tt
  end.

(** [double a[1024]={0}] after the decoder wrote [vals] at its start. *)
Definition array_of (vals : list float) : list float :=
  (vals ++ repeat 0%float (1024 - List.length vals))%list.

(** The loop over [i < n] that accumulates [mae] and [mx]. *)
Definition diff_loop (n : nat) (a b : list float) : float * float :=
  for_loop 0 n
    (fun i '(mae, mx) =>
       let d := abs (nth i a 0 - nth i b 0)%float in
       ((mae + d)%float, if (mx <? d)%float then d else mx))
    (0%float, 0%float).

(** Lines 135-141, after the two replies were decoded to [va] and
    [vb]: the arrays, the common length, [mae] and [mx]. *)
Definition metrics (va vb : list float) : float * float :=
  let a := array_of va in
  let b := array_of vb in
  let na := List.length va in
  let nb := List.length vb in
  let n := if (na <? nb)%nat then na else nb in
  let '(mae, mx) := diff_loop n a b in
  let mae := if (0 <? n)%nat then (mae / Z2double (Z.of_nat n))%float else mae in
  (mae, mx).

Definition compare_outputs (outA outB : option string) : float * float :=
  metrics (parse_vector_tolerant outA 1024) (parse_vector_tolerant outB 1024).

(** [gpu_ms>0 ? cpu_ms/gpu_ms : 0.0] *)
Definition speedup (cpu_ms gpu_ms : float) : float :=
  if (0 <? gpu_ms)%float then (cpu_ms / gpu_ms)%float else 0%float.

Definition est_mb (dims : list Z) (ndims : nat) : float :=
  let params := for_loop 0 (ndims - 1)
                  (fun i p => p + nth i dims 0 * nth (i + 1) dims 0) 0 in
  let params := for_loop 1 (ndims - 1) (fun i p => p + nth i dims 0) params in
  (Z2double params * 4 / (1024 * 1024))%float.

(** What one case prints: the arguments handed to [printf]. *)
Record report := {
  r_est_mb : float;
  r_adapter : option string;
  r_init_ms : float;
  r_cpu_ms : float;
  r_gpu_ms : float;
  r_speedup : float;
  r_mae : float;
  r_max : float;
  r_outA : option string;
  r_outB : option string
}.

Inductive case_result : Type :=
| ConstructionFailed (newr : option string)
| Reported (r : report).

(** [snprintf(args, strlen(xin)+3, "[%s]", xin)] *)
Definition forward_args (xin : string) : string :=
  snprintf (strlen xin + 3) ("[" ++ xin ++ "]").

Definition run_one (api : ParagonAPI) (id : string) (dims : list Z) (ndims : nat)
  : M case_result :=
  let layers := json_layers dims ndims in
  let activs := json_activs ndims in
  let fully := json_trainable ndims in
  let xin := json_fixed784 in
  newr <- paragon_new_net_any api layers activs fully false false ;;
  let h := paragon_parse_handle newr in
  if h <=? 0 then ret (ConstructionFailed newr)
  else
    t_gpu_init_s <- now_ms ;;
    adapter <- paragon_call0 api h "InitializeOptimizedGPU" ;;
    t_gpu_init_e <- now_ms ;;
    try_gpu_enable api h ;;;
    t0 <- now_ms ;;
    call_unchecked api h "Forward" (forward_args xin) ;;;
    outA <- paragon_call0 api h "ExtractOutput" ;;
    t1 <- now_ms ;;
    paragon_call0 api h "ToggleGPU" ;;;
    tg0 <- now_ms ;;
    call_unchecked api h "Forward" (forward_args xin) ;;;
    outB <- paragon_call0 api h "ExtractOutput" ;;
    tg1 <- now_ms ;;
    let '(mae, mx) := compare_outputs outA outB in
    let cpu_ms := (t1 - t0)%float in
    let gpu_ms := (tg1 - tg0)%float in
    ret (Reported {| r_est_mb := est_mb dims ndims;
                     r_adapter := adapter;
                     r_init_ms := (t_gpu_init_e - t_gpu_init_s)%float;
                     r_cpu_ms := cpu_ms;
                     r_gpu_ms := gpu_ms;
                     r_speedup := speedup cpu_ms gpu_ms;
                     r_mae := mae;
                     r_max := mx;
                     r_outA := outA;
                     r_outB := outB |}).

Definition suite : list (string * list Z) :=
  [("S1", [784; 64; 10]); ("S2", [784; 128; 10]); ("S3", [784; 256; 10]);
   ("M1", [784; 256; 256; 10]); ("M2", [784; 384; 384; 10]);
   ("M3", [784; 512; 512; 10]);
   ("L1", [784; 768; 768; 768; 10]); ("L2", [784; 1024; 1024; 1024; 10]);
   ("XL1", [784; 1536; 1536; 1536; 1536; 10]);
   ("XL2", [784; 2048; 2048; 2048; 2048; 10])].

(** The ten calls of [run_one] in [main], in order. *)
Fixpoint run_cases (api : ParagonAPI) (cases : list (string * list Z))
  : M (list case_result) :=
  match cases with
  | [] => ret []
  | (id, dims) :: rest =>
      r <- run_one api id dims (List.length dims) ;;
      rs <- run_cases api rest ;;
      ret (r :: rs)
  end.

(** [argv[1]] when there is one and it does not start with a dash. *)
Definition so_of_argv (argv : list string) : option string :=
  match argv with
  | _ :: a1 :: _ =>
      match a1 with
      | String c _ => if Ascii.eqb c "-" then None else Some a1
      | EmptyString => Some a1
      end
  | _ => None
  end.

(** [main]: the exit status, with what each case printed. *)
Definition main (argv : list string) : M (Z * list case_result) :=
  let '(_, api) := paragon_load (so_of_argv argv) in
  rs <- run_cases api suite ;;
  let _ := paragon_unload api in
  ret (0, rs).

End WithWorld.
End Api.

Arguments Api.Done {W A} a st.
Arguments Api.Fault {W A}.
Arguments Api.lib {W} s.
Arguments Api.ticks {W} s.

(** ** Notions the specification speaks of *)

Module Spec.

(** "The text has a [c]". *)
Fixpoint has_char (c : ascii) (s : string) : bool :=
  match s with
  | EmptyString => false
  | String a r => Ascii.eqb a c || has_char c r
  end.

(** "The text contains [needle]". *)
Definition contains (needle s : string) : Prop :=
  exists pre post, s = pre ++ needle ++ post.

(** A suffix of a buffer: a pointer into it. *)
Definition suffix (e s : string) : Prop := exists pre, s = pre ++ e.

Fixpoint all_chars (P : ascii -> bool) (s : string) : bool :=
  match s with
  | EmptyString => true
  | String a r => P a && all_chars P r
  end.

(** A pointer [e] reached from [s] by passing only characters that
    satisfy [ok]. *)
Definition reads (ok : ascii -> bool) (e s : string) : Prop :=
  exists pre, s = pre ++ e /\ all_chars ok pre = true.

Definition not_bracket (c : ascii) : bool := negb (Ascii.eqb c "]").

Definition any_char (c : ascii) : bool := true.

(** The number a row of decimal digits denotes, read after [acc]. *)
Fixpoint uint_val (d : Decimal.uint) (acc : Z) : Z :=
  match d with
  | Decimal.Nil => acc
  | Decimal.D0 l => uint_val l (acc * 10 + 0)
  | Decimal.D1 l => uint_val l (acc * 10 + 1)
  | Decimal.D2 l => uint_val l (acc * 10 + 2)
  | Decimal.D3 l => uint_val l (acc * 10 + 3)
  | Decimal.D4 l => uint_val l (acc * 10 + 4)
  | Decimal.D5 l => uint_val l (acc * 10 + 5)
  | Decimal.D6 l => uint_val l (acc * 10 + 6)
  | Decimal.D7 l => uint_val l (acc * 10 + 7)
  | Decimal.D8 l => uint_val l (acc * 10 + 8)
  | Decimal.D9 l => uint_val l (acc * 10 + 9)
  end.

(** The state of the recurrence after [k] steps from the seed 123. *)
Definition lcg_state (k : nat) : Z := Nat.iter k lcg_step 123.

(** A floating-point literal as ["%.6f"] writes a non-negative finite
    number: digits, a point, six digits. *)
Definition is_f6_literal (s : string) : bool :=
  let n := strlen s in
  (8 <=? n)%nat
  && all_chars isdigit (substring 0 (n - 7) s)
  && (substring (n - 7) 1 s =? ".")%string
  && all_chars isdigit (substring (n - 6) 6 s).







(** Vector decoding, step by step: standing at [s] with [room] cells
    left and the closing bracket at [q], these values are collected. *)
Inductive collects (q : string) : string -> nat -> list float -> Prop :=
| collects_stop s room :
    ptr_lt s q = false \/ room = O ->
    collects q s room []
| collects_skip c s room vs :
    ptr_lt (String c s) q = true ->
    snd (strtod (String c s)) = String c s ->
    collects q s (S room) vs ->
    collects q (String c s) (S room) vs
| collects_take s room v e vs :
    ptr_lt s q = true ->
    strtod s = (v, e) ->
    e <> s ->
    collects q e room vs ->
    collects q s (S room) (v :: vs).

(** Mean absolute difference of two vectors cut to the shorter one. *)
Definition abs_diffs (xs ys : list float) : list float :=
  let n := Nat.min (List.length xs) (List.length ys) in
  map (fun p => abs (fst p - snd p)%float) (combine (firstn n xs) (firstn n ys)).

Definition mean_abs_diff (xs ys : list float) : float :=
  match abs_diffs xs ys with
  | [] => 0%float
  | ds => (fold_left PrimFloat.add ds 0 / Z2double (Z.of_nat (List.length ds)))%float
  end.

(** [m] is the largest of the differences [ds], or zero when there
    are none (a difference that is not a number is never counted). *)
Definition is_max_of (ds : list float) (m : float) : Prop :=
  (m = 0%float \/ In m ds) /\ forall d, In d ds -> (m <? d)%float = false.

(** The construction strategies and their fixed priority. *)
Inductive strategy : Type := Direct5 | Direct3 | ViaCall | NoRoute.

Definition bound {A : Type} (o : option A) : bool :=
  match o with Some _ => true | None => false end.

Definition select_strategy (has5 has3 hasCall : bool) : strategy :=
  if has5 then Direct5
  else if has3 then Direct3
  else if hasCall then ViaCall
  else NoRoute.

(** The branch a run of the facade went through, read off the calls
    it made. *)
Definition branch_of (evs : list event) : strategy :=
  match evs with
  | [EvNew5 _ _ _ _ _ _] => Direct5
  | [EvNew3 _ _ _ _] => Direct3
  | [EvCall _ _ _ _] => ViaCall
  | _ => NoRoute
  end.

(** The calls of a case after construction, to dispatcher [f]. *)
Definition case_calls (f : fnptr) (h : Z) : list event :=
  map (fun ma => EvCall f h (fst ma) (snd ma))
    [("InitializeOptimizedGPU", "[]");
     ("SetWebGPUNative", "[]");
     ("WebGPUNativeOn", "[]");
     ("Configure", "[{" ++ quoted "WebGPUNative" ++ ":true}]");
     ("SetOptions", "[{" ++ quoted "WebGPUNative" ++ ":true}]");
     ("SetField", "[" ++ quoted "WebGPUNative" ++ ",true]");
     ("Call", "[" ++ quoted "SetWebGPUNative" ++ ",[true]]");
     ("Forward", Api.forward_args json_fixed784);
     ("ExtractOutput", "[]");
     ("ToggleGPU", "[]");
     ("Forward", Api.forward_args json_fixed784);
     ("ExtractOutput", "[]")].

Definition is_forward (ev : event) : bool :=
  match ev with
  | EvCall _ _ m _ => (m =? "Forward")%string
  | _ => false
  end.

End Spec.

Import Spec.

(** ** Two concrete worlds *)

Module Worlds.

(** No library can be loaded. *)
Definition nolib : World :=
  {| lib_state := unit;
     dlopen := fun _ => None;
     dlsym := fun _ _ => None;
     exec_new5 := fun _ _ _ _ _ _ st => (None, st);
     exec_new3 := fun _ _ _ _ st => (None, st);
     exec_call := fun _ _ _ _ st => (None, st);
     clock_gettime := fun k => (Z.of_nat k, 0) |}.

(** A library at [libparagon.so] that exports the 5-argument
    constructor and the dispatcher under their [Paragon_] names.  The
    constructor answers [newr].  The state counts the [ExtractOutput]
    calls: the first answers [[1,2,3]], the later ones [[1,2,5]]. *)
Definition replying (newr : option string) : World :=
  {| lib_state := nat;
     dlopen := fun p =>
       match p with
       | Some path => if (path =? "libparagon.so")%string then Some 1%N else None
       | None => None
       end;
     dlsym := fun _ name =>
       if (name =? "Paragon_NewNetworkFloat32")%string then Some 5%N
       else if (name =? "Paragon_Call")%string then Some 9%N
       else None;
     exec_new5 := fun _ _ _ _ _ _ st => (newr, st);
     exec_new3 := fun _ _ _ _ st => (None, st);
     exec_call := fun _ _ method _ st =>
       if (method =? "ExtractOutput")%string
       then (Some (match st with O => "[1,2,3]" | S _ => "[1,2,5]" end), S st)
       else (None, st);
     clock_gettime := fun k => (Z.of_nat k, 0) |}.

Definition demo : World := replying (Some ("{" ++ quoted "handle" ++ ": 7}")).

Definition demo_api : ParagonAPI :=
  {| so := Some 1%N; New5 := Some 5%N; New3 := None; Call := Some 9%N |}.

Definition start {W : World} (l : lib_state W) : Api.state W :=
  {| Api.lib := l; Api.ticks := O |}.

End Worlds.

(** ** Further notions: encodings, counts and worlds *)

Module Forms.

(** One entry of the layer list, as [json_layers] formats it. *)
Definition layer_text (w : Z) : string :=
  "{" ++ quoted "Width" ++ ":" ++ fmt_d w ++ "," ++ quoted "Height" ++ ":1}".

(** A JSON list of already encoded items. *)
Definition json_list (items : list string) : string :=
  "[" ++ String.concat "," items ++ "]".

(** The activation tags of a stack of [n] layers. *)
Definition activ_tags (n : nat) : list string :=
  (quoted "linear" :: repeat (quoted "relu") (n - 2) ++ [quoted "softmax"])%list.

(** A JSON list of integers. *)
Definition json_ints (ns : list Z) : string :=
  "[" ++ String.concat "," (map fmt_d ns) ++ "]".

(** The two loops of [run_one] that count the parameters. *)
Definition params_of (dims : list Z) (ndims : nat) : Z :=
  let params := for_loop 0 (ndims - 1)
                  (fun i p => p + nth i dims 0 * nth (i + 1) dims 0) 0 in
  for_loop 1 (ndims - 1) (fun i p => p + nth i dims 0) params.

(** Weights and biases of a stack of dense layers. *)
Fixpoint dense_params (dims : list Z) : Z :=
  match dims with
  | a :: rest =>
      match rest with
      | b :: _ => (a + 1) * b + dense_params rest
      | [] => 0
      end
  | [] => 0
  end.

(** A reply that names the handle under [key], bare or inside a
    [result] wrapper. *)
Definition keyed_reply (wrapped : bool) (key sep : string) (n : Z) : string :=
  (if wrapped then "{" ++ quoted "result" ++ ":" else "")
  ++ "{" ++ key ++ ":" ++ sep ++ fmt_d n ++ "}"
  ++ (if wrapped then "}" else "").

(** A reply with two keyed numbers, [k1] written first. *)
Definition two_keys_reply (k1 : string) (a : Z) (k2 : string) (b : Z) : string :=
  "{" ++ k1 ++ ":" ++ fmt_d a ++ "," ++ k2 ++ ":" ++ fmt_d b ++ "}".

(** What may follow a number in a JSON list. *)
Definition stop_char (c : ascii) : bool :=
  Ascii.eqb c "," || Ascii.eqb c "]".

(** The text after a number in a JSON list: nothing, or a comma or a
    closing bracket and more. *)
Definition stops (tail : string) : Prop :=
  match tail with
  | String c _ => stop_char c = true
  | EmptyString => True
  end.

(** The text after a number does not go on with a digit. *)
Definition no_digit_ahead (tail : string) : Prop :=
  match tail with
  | String c _ => isdigit c = false
  | EmptyString => True
  end.

(** The double quote as a character. *)
Definition dqc : ascii := ascii_of_nat 34.

(** [name] is the first of [names] that the library [h] exports, and
    it is at [p]. *)
Definition first_export (W : World) (h : so_handle) (names : list string)
    (p : fnptr) : Prop :=
  exists pre name post,
    names = (pre ++ name :: post)%list
    /\ dlsym W h name = Some p
    /\ forall n, In n pre -> dlsym W h n = None.

(** The six calls of [try_gpu_enable]. *)
Definition gpu_calls (f : fnptr) (h : Z) : list event :=
  [EvCall f h "SetWebGPUNative" "[]";
   EvCall f h "WebGPUNativeOn" "[]";
   EvCall f h "Configure" ("[{" ++ quoted "WebGPUNative" ++ ":true}]");
   EvCall f h "SetOptions" ("[{" ++ quoted "WebGPUNative" ++ ":true}]");
   EvCall f h "SetField" ("[" ++ quoted "WebGPUNative" ++ ",true]");
   EvCall f h "Call" ("[" ++ quoted "SetWebGPUNative" ++ ",[true]]")].

(** A library that loads and exports none of the nine names. *)
Definition nosyms : World :=
  {| lib_state := unit;
     dlopen := fun _ => Some 1%N;
     dlsym := fun _ _ => None;
     exec_new5 := fun _ _ _ _ _ _ st => (None, st);
     exec_new3 := fun _ _ _ _ st => (None, st);
     exec_call := fun _ _ _ _ st => (None, st);
     clock_gettime := fun k => (Z.of_nat k, 0) |}.

(** A library that exports the 3-argument constructor under its plain
    name and nothing else; the constructor answers the bare handle 7. *)
Definition ctor_only : World :=
  {| lib_state := unit;
     dlopen := fun _ => Some 1%N;
     dlsym := fun _ name =>
       if (name =? "NewNetworkFloat32_JSON")%string then Some 3%N else None;
     exec_new5 := fun _ _ _ _ _ _ st => (None, st);
     exec_new3 := fun _ _ _ _ st => (Some "7", st);
     exec_call := fun _ _ _ _ st => (None, st);
     clock_gettime := fun k => (Z.of_nat k, 0) |}.

End Forms.

Import Forms.

(** * Properties *)

(** ** Strings and pointers *)

Section StringFacts.

Lemma app_nil_r (s : string) : s ++ "" = s.
Proof. induction s as [|c s IH]; simpl; [reflexivity | now rewrite IH]. Qed.

Lemma app_assoc (a b c : string) : (a ++ b) ++ c = a ++ (b ++ c).
Proof. induction a as [|x a IH]; simpl; [reflexivity | now rewrite IH]. Qed.

Lemma strlen_app (a b : string) : strlen (a ++ b) = (strlen a + strlen b)%nat.
Proof.
  unfold strlen. induction a as [|x a IH]; simpl; [reflexivity | now rewrite IH].
Qed.

Lemma truncate_all (n : nat) (s : string) :
  (strlen s <= n)%nat -> truncate n s = s.
Proof.
  unfold strlen. revert n.
  induction s as [|c s IH]; intros [|n] H; simpl in *; try reflexivity; try lia.
  rewrite IH by lia. reflexivity.
Qed.

Lemma suffix_refl s : suffix s s.
Proof. now exists "". Qed.

Lemma suffix_trans a b c : suffix a b -> suffix b c -> suffix a c.
Proof.
  intros [p ->] [q ->]. exists (q ++ p). now rewrite app_assoc.
Qed.

Lemma suffix_tail c s : suffix s (String c s).
Proof. now exists (String c ""). Qed.

Lemma suffix_len e s : suffix e s -> (strlen e <= strlen s)%nat.
Proof. intros [p ->]. rewrite strlen_app. lia. Qed.

Lemma suffix_same_len e s : suffix e s -> strlen e = strlen s -> e = s.
Proof.
  intros [p ->]. rewrite strlen_app.
  destruct p; simpl; [reflexivity | unfold strlen; simpl; lia].
Qed.

Lemma ptr_eq_suffix e s : suffix e s -> ptr_eq e s = true -> e = s.
Proof.
  unfold ptr_eq. intros H E. apply Nat.eqb_eq in E. now apply suffix_same_len.
Qed.

Lemma all_chars_app P a b :
  all_chars P (a ++ b) = all_chars P a && all_chars P b.
Proof.
  induction a as [|x a IH]; simpl; [reflexivity|].
  now rewrite IH, andb_assoc.
Qed.

Lemma reads_refl ok s : reads ok s s.
Proof. now exists "". Qed.

Lemma reads_trans ok a b c : reads ok a b -> reads ok b c -> reads ok a c.
Proof.
  intros (p & -> & Hp) (q & -> & Hq). exists (q ++ p).
  split; [now rewrite app_assoc|]. now rewrite all_chars_app, Hq, Hp.
Qed.

Lemma reads_tail ok c s : ok c = true -> reads ok s (String c s).
Proof. intros H. exists (String c ""). simpl. now rewrite H. Qed.

Lemma reads_suffix ok e s : reads ok e s -> suffix e s.
Proof. intros (p & -> & _). now exists p. Qed.

Lemma ptr_eq_refl s : ptr_eq s s = true.
Proof. unfold ptr_eq. apply Nat.eqb_refl. Qed.

(** [strchr] and [strrchr] find the first and the last occurrence. *)
Lemma strchr_None s c : strchr s c = None <-> has_char c s = false.
Proof.
  induction s as [|a s IH]; simpl; [tauto|].
  destruct (Ascii.eqb a c); simpl; [split; discriminate | exact IH].
Qed.

Lemma strchr_Some s c p :
  strchr s c = Some p ->
  exists a r, s = a ++ p /\ p = String c r /\ has_char c a = false.
Proof.
  induction s as [|x s IH]; simpl; [discriminate|].
  destruct (Ascii.eqb x c) eqn:E.
  - intros [= <-]. apply Ascii.eqb_eq in E. subst x.
    now exists "", s.
  - intros H. destruct (IH H) as (a & r & -> & -> & Ha).
    exists (String x a), r. simpl. rewrite E. auto.
Qed.

Lemma strchr_first a c r :
  has_char c a = false -> strchr (a ++ String c r) c = Some (String c r).
Proof.
  induction a as [|x a IH]; simpl.
  - now rewrite Ascii.eqb_refl.
  - destruct (Ascii.eqb x c); simpl; [discriminate | exact IH].
Qed.

Lemma strrchr_None s c : strrchr s c = None <-> has_char c s = false.
Proof.
  induction s as [|a s IH]; simpl; [tauto|].
  destruct (strrchr s c) eqn:E.
  - split; [discriminate|]. intros H. apply orb_false_iff in H.
    destruct H as [_ H]. apply IH in H. discriminate.
  - assert (has_char c s = false) as -> by now apply IH.
    rewrite orb_false_r. destruct (Ascii.eqb a c); split; congruence.
Qed.

Lemma strrchr_Some s c q :
  strrchr s c = Some q ->
  exists a r, s = a ++ q /\ q = String c r /\ has_char c r = false.
Proof.
  revert q. induction s as [|x s IH]; simpl; [discriminate|].
  intros q. destruct (strrchr s c) eqn:E.
  - intros [= <-]. destruct (IH _ eq_refl) as (a & r & -> & -> & Hr).
    now exists (String x a), r.
  - destruct (Ascii.eqb x c) eqn:X; [|discriminate].
    intros [= <-]. apply Ascii.eqb_eq in X. subst x.
    exists "", s. repeat split. now apply strrchr_None.
Qed.

Lemma strrchr_last a c r :
  has_char c r = false -> strrchr (a ++ String c r) c = Some (String c r).
Proof.
  intros Hr. induction a as [|x a IH]; simpl.
  - assert (strrchr r c = None) as -> by now apply strrchr_None.
    now rewrite Ascii.eqb_refl.
  - now rewrite IH.
Qed.

(** [strstr] finds an occurrence, when there is one. *)
Lemma starts_with_app k s : starts_with k s = true <-> exists post, s = k ++ post.
Proof.
  revert s. induction k as [|a k IH]; intros s; simpl.
  - split; [now exists s | reflexivity].
  - destruct s as [|b s].
    + split; [discriminate | intros [post H]; discriminate].
    + rewrite andb_true_iff, IH, Ascii.eqb_eq. split.
      * intros [-> [post ->]]. now exists post.
      * intros [post [= -> ->]]. split; [reflexivity | now exists post].
Qed.

Lemma strstr_Some hay k p :
  strstr hay k = Some p ->
  exists pre post, hay = pre ++ p /\ p = k ++ post.
Proof.
  induction hay as [|x hay IH]; simpl.
  - destruct (starts_with k "") eqn:E; [|discriminate].
    intros [= <-]. apply starts_with_app in E. destruct E as [post E].
    now exists "", post.
  - destruct (starts_with k (String x hay)) eqn:E.
    + intros [= <-]. apply starts_with_app in E. destruct E as [post E].
      now exists "", post.
    + intros H. destruct (IH H) as (pre & post & -> & ->).
      now exists (String x pre), post.
Qed.

Lemma strstr_None hay k : strstr hay k = None -> ~ contains k hay.
Proof.
  induction hay as [|x hay IH]; simpl.
  - destruct (starts_with k "") eqn:E; [discriminate|].
    intros _ (pre & post & H). destruct pre; [|discriminate]. simpl in H.
    assert (starts_with k "" = true) by (apply starts_with_app; now exists post).
    congruence.
  - destruct (starts_with k (String x hay)) eqn:E; [discriminate|].
    intros H (pre & post & Heq). destruct pre as [|y pre]; simpl in Heq.
    + assert (starts_with k (String x hay) = true)
        by (apply starts_with_app; now exists post).
      congruence.
    + injection Heq as _ Heq. apply (IH H). now exists pre, post.
Qed.

End StringFacts.

(** ** The number readers return a pointer into their argument *)

Section Readers.

(** The characters a number may be made of. *)
Variable ok : ascii -> bool.
Hypothesis ok_space : forall c, isspace c = true -> ok c = true.
Hypothesis ok_xdigit : forall c, isxdigit c = true -> ok c = true.
Hypothesis ok_alpha : forall c, isalpha c = true -> ok c = true.
Hypothesis ok_minus : ok "-" = true.
Hypothesis ok_plus : ok "+" = true.
Hypothesis ok_point : ok "." = true.
Hypothesis ok_open : ok "(" = true.
Hypothesis ok_close : ok ")" = true.
Hypothesis ok_underscore : ok "_" = true.

Lemma ok_digit c : isdigit c = true -> ok c = true.
Proof. intros H. apply ok_xdigit. unfold isxdigit. now rewrite H. Qed.

Lemma ok_alnum c : isalpha c || isdigit c = true -> ok c = true.
Proof.
  intros H. apply orb_true_iff in H.
  destruct H; [now apply ok_alpha | now apply ok_digit].
Qed.

(** A letter or digit stays one when its case is put back. *)
Lemma tolower_class b :
  isalpha (tolower b) || isdigit (tolower b) = true ->
  isalpha b || isdigit b = true.
Proof.
  unfold tolower. destruct ((65 <=? code b) && (code b <=? 90)) eqn:E;
    [|trivial].
  intros _. unfold isalpha. now rewrite E.
Qed.

Lemma skip_space_reads s : reads ok (skip_space s) s.
Proof.
  induction s as [|c s IH]; simpl; [apply reads_refl|].
  destruct (isspace c) eqn:E; [|apply reads_refl].
  eapply reads_trans; [exact IH | apply reads_tail; auto].
Qed.

Lemma take_sign_reads s : reads ok (snd (take_sign s)) s.
Proof.
  destruct s as [|c s]; simpl; [apply reads_refl|].
  destruct (Ascii.eqb_spec c "-") as [->|_]; simpl; [now apply reads_tail|].
  destruct (Ascii.eqb_spec c "+") as [->|_]; simpl;
    [now apply reads_tail | apply reads_refl].
Qed.

Lemma take_digits_reads hex acc cnt s :
  reads ok (snd (take_digits hex acc cnt s)) s.
Proof.
  revert acc cnt. induction s as [|c s IH]; intros acc cnt; simpl;
    [apply reads_refl|].
  destruct hex.
  - destruct (isxdigit c) eqn:E; simpl; [|apply reads_refl].
    eapply reads_trans; [apply IH | apply reads_tail; auto].
  - destruct (isdigit c) eqn:E; simpl; [|apply reads_refl].
    eapply reads_trans; [apply IH | apply reads_tail; now apply ok_digit].
Qed.

(** No digit read: the pointer did not move. *)
Lemma take_digits_count hex acc cnt s :
  (cnt <= snd (fst (take_digits hex acc cnt s)))%nat.
Proof.
  revert acc cnt. induction s as [|c s IH]; intros acc cnt; simpl; [lia|].
  destruct hex.
  - destruct (isxdigit c); simpl; [|lia].
    specialize (IH (acc * 16 + xdigit_val c) (S cnt)). lia.
  - destruct (isdigit c); simpl; [|lia].
    specialize (IH (acc * 10 + digit_val c) (S cnt)). lia.
Qed.

Lemma take_digits_moves hex acc s m e n :
  take_digits hex acc 0 s = (m, S n, e) -> (strlen e < strlen s)%nat.
Proof.
  destruct s as [|c s]; simpl; [discriminate|].
  pose proof (reads_suffix _ _ _
                (take_digits_reads hex (acc * 16 + xdigit_val c) 1 s)) as H16.
  pose proof (reads_suffix _ _ _
                (take_digits_reads hex (acc * 10 + digit_val c) 1 s)) as H10.
  destruct hex.
  - destruct (isxdigit c); [|discriminate]. intros E. rewrite E in H16.
    apply suffix_len in H16. simpl in H16. unfold strlen in *. simpl. lia.
  - destruct (isdigit c); [|discriminate]. intros E. rewrite E in H10.
    apply suffix_len in H10. simpl in H10. unfold strlen in *. simpl. lia.
Qed.

Lemma strtoll_reads s : reads ok (snd (strtoll s)) s.
Proof.
  unfold strtoll.
  pose proof (take_sign_reads (skip_space s)) as H1.
  destruct (take_sign (skip_space s)) as [neg s1]. simpl in H1.
  pose proof (take_digits_reads false 0 0 s1) as H2.
  destruct (take_digits false 0 0 s1) as [[m cnt] e]. simpl in H2.
  destruct cnt; simpl; [apply reads_refl|].
  eapply reads_trans; [exact H2|].
  eapply reads_trans; [exact H1 | apply skip_space_reads].
Qed.

Lemma strip_ci_reads l s r :
  all_chars (fun a => isalpha a || isdigit a) l = true ->
  strip_ci l s = Some r -> reads ok r s.
Proof.
  revert s. induction l as [|a l IH]; intros s Hl; simpl.
  - intros [= <-]. apply reads_refl.
  - destruct s as [|b s]; [discriminate|].
    simpl in Hl. apply andb_true_iff in Hl. destruct Hl as [Ha Hl].
    destruct (Ascii.eqb_spec a (tolower b)) as [->|_]; [|discriminate].
    intros H. eapply reads_trans; [exact (IH _ Hl H)|].
    apply reads_tail, ok_alnum, tolower_class, Ha.
Qed.

Lemma skip_nchar_reads s : reads ok (skip_nchar s) s.
Proof.
  induction s as [|c s IH]; simpl; [apply reads_refl|].
  destruct (isdigit c || isalpha c || Ascii.eqb c "_") eqn:E; [|apply reads_refl].
  eapply reads_trans; [exact IH | apply reads_tail].
  apply orb_true_iff in E. destruct E as [E|E].
  - apply ok_alnum. now rewrite orb_comm.
  - apply Ascii.eqb_eq in E. now subst c.
Qed.

Lemma nan_payload_reads s : reads ok (nan_payload s) s.
Proof.
  destruct s as [|c r]; simpl; [apply reads_refl|].
  destruct (Ascii.eqb_spec c "(") as [->|_]; [|apply reads_refl].
  pose proof (skip_nchar_reads r) as H.
  destruct (skip_nchar r) as [|d r']; [apply reads_refl|].
  destruct (Ascii.eqb_spec d ")") as [->|_]; [|apply reads_refl].
  apply (reads_trans ok r' (String ")" r') _); [apply reads_tail, ok_close|].
  apply (reads_trans ok _ r _); [exact H | apply reads_tail, ok_open].
Qed.

Lemma parse_mantissa_reads hex s m c2 r :
  parse_mantissa hex s = Some (m, c2, r) ->
  reads ok r s /\ (strlen r < strlen s)%nat.
Proof.
  unfold parse_mantissa.
  pose proof (take_digits_reads hex 0 0 s) as H1.
  destruct (take_digits hex 0 0 s) as [[m1 c1] r1] eqn:E1. simpl in H1.
  assert (c1 <> O -> strlen r1 < strlen s)%nat as Hmove.
  { destruct c1; [congruence|]. intros _. eapply take_digits_moves; eauto. }
  assert (forall r0 m' c' r',
             r1 = String "." r0 -> take_digits hex m1 0 r0 = (m', c', r') ->
             reads ok r' s /\ (strlen r' < strlen s)%nat) as Hfrac.
  { intros r0 m' c' r' -> E2.
    pose proof (take_digits_reads hex m1 0 r0) as H2. rewrite E2 in H2. simpl in H2.
    split.
    - eapply reads_trans; [exact H2|].
      eapply reads_trans; [apply reads_tail, ok_point | exact H1].
    - apply reads_suffix, suffix_len in H1. apply reads_suffix, suffix_len in H2.
      unfold strlen in *. simpl in *. lia. }
  destruct r1 as [|c r0].
  - destruct (c1 + 0)%nat eqn:N; [discriminate|]. intros [= <- <- <-].
    split; [exact H1 | apply Hmove; lia].
  - destruct (Ascii.eqb_spec c ".") as [->|_].
    + destruct (take_digits hex m1 0 r0) as [[m' c'] r'] eqn:E2.
      destruct (c1 + c')%nat; [discriminate|]. intros [= <- <- <-].
      eapply Hfrac; eauto.
    + destruct (c1 + 0)%nat eqn:N; [discriminate|]. intros [= <- <- <-].
      split; [exact H1 | apply Hmove; lia].
Qed.

Lemma take_exponent_reads marker s :
  isalpha marker = true -> reads ok (snd (take_exponent marker s)) s.
Proof.
  intros Hm. destruct s as [|c r]; simpl; [apply reads_refl|].
  destruct (Ascii.eqb_spec (tolower c) marker) as [E|_]; [|apply reads_refl].
  pose proof (take_sign_reads r) as H1.
  destruct (take_sign r) as [neg s1]. simpl in H1.
  pose proof (take_digits_reads false 0 0 s1) as H2.
  destruct (take_digits false 0 0 s1) as [[v cnt] e]. simpl in H2.
  destruct cnt; simpl; [apply reads_refl|].
  eapply reads_trans; [exact H2|].
  eapply reads_trans; [exact H1 | apply reads_tail].
  apply ok_alnum, tolower_class. now rewrite E, Hm.
Qed.

Lemma strtod_reads s : reads ok (snd (strtod s)) s.
Proof.
  unfold strtod.
  pose proof (take_sign_reads (skip_space s)) as H1.
  destruct (take_sign (skip_space s)) as [neg s1]. cbn [snd] in H1.
  assert (reads ok s1 s) as Hs1
    by (eapply reads_trans; [exact H1 | apply skip_space_reads]).
  destruct (strip_ci "inf" s1) as [r|] eqn:Einf.
  { apply strip_ci_reads in Einf; [|reflexivity]. cbn [snd].
    destruct (strip_ci "inity" r) as [r'|] eqn:Einity.
    - apply strip_ci_reads in Einity; [|reflexivity].
      eapply reads_trans; [exact Einity|]. eapply reads_trans; eauto.
    - eapply reads_trans; eauto. }
  destruct (strip_ci "nan" s1) as [r|] eqn:Enan.
  { apply strip_ci_reads in Enan; [|reflexivity]. cbn [snd].
    eapply reads_trans; [apply nan_payload_reads|].
    eapply reads_trans; eauto. }
  destruct (match strip_ci "0x" s1 with
            | Some r => parse_mantissa true r
            | None => None
            end) as [[[m c2] r]|] eqn:Ehex.
  { destruct (strip_ci "0x" s1) as [r0|] eqn:E0x; [|discriminate].
    apply strip_ci_reads in E0x; [|reflexivity].
    apply parse_mantissa_reads in Ehex. destruct Ehex as [Ehex _].
    pose proof (take_exponent_reads "p" r eq_refl) as H3.
    destruct (take_exponent "p" r) as [e r']. cbn [snd] in *.
    eapply reads_trans; [exact H3|]. eapply reads_trans; [exact Ehex|].
    eapply reads_trans; eauto. }
  destruct (parse_mantissa false s1) as [[[m c2] r]|] eqn:Edec.
  { apply parse_mantissa_reads in Edec. destruct Edec as [Edec _].
    pose proof (take_exponent_reads "e" r eq_refl) as H3.
    destruct (take_exponent "e" r) as [e r']. cbn [snd] in *.
    eapply reads_trans; [exact H3|]. eapply reads_trans; eauto. }
  cbn [snd]. apply reads_refl.
Qed.

End Readers.

(** The readers return a pointer into their argument. *)
Lemma strtoll_suffix s : suffix (snd (strtoll s)) s.
Proof. apply (reads_suffix any_char), strtoll_reads; reflexivity. Qed.

Lemma strtod_suffix s : suffix (snd (strtod s)) s.
Proof. apply (reads_suffix any_char), strtod_reads; reflexivity. Qed.

(** [strtod] never reads over a closing bracket. *)
Lemma not_bracket_class (P : ascii -> bool) :
  P "]"%char = false -> forall c, P c = true -> not_bracket c = true.
Proof.
  intros H c Hc. unfold not_bracket.
  destruct (Ascii.eqb_spec c "]") as [->|_]; [congruence | reflexivity].
Qed.

Lemma strtod_stops_at_bracket s : reads not_bracket (snd (strtod s)) s.
Proof.
  apply strtod_reads;
    solve [ apply not_bracket_class; reflexivity | reflexivity ].
Qed.

Section DecimalText.

(** [strtoll] reads back what ["%lld"] writes. *)
Lemma uint_val_pos d : forall acc,
  uint_val d (Zpos acc) = Zpos (Pos.of_uint_acc d acc).
Proof.
  induction d as [|d IH|d IH|d IH|d IH|d IH|d IH|d IH|d IH|d IH|d IH];
    intros acc; cbn [uint_val Pos.of_uint_acc].
  1: reflexivity.
  all: rewrite <- IH; f_equal; lia.
Qed.

Lemma uint_val_0 d : uint_val d 0 = Z.of_N (Pos.of_uint d).
Proof.
  induction d as [|d IH|d IH|d IH|d IH|d IH|d IH|d IH|d IH|d IH|d IH];
    cbn [uint_val Pos.of_uint].
  1: reflexivity.
  1: exact IH.
  all: cbn [Z.mul Z.add Z.of_N]; apply uint_val_pos.
Qed.




Lemma to_uint_nonnil n : N.to_uint n <> Decimal.Nil.
Proof.
  destruct n as [|p]; [discriminate | apply DecimalPos.Unsigned.to_uint_nonnil].
Qed.

Lemma fmt_uint_digits n :
  fmt_uint n = NilEmpty.string_of_uint (N.to_uint (Z.to_N n)).
Proof.
  unfold fmt_uint, NilZero.string_of_uint.
  pose proof (to_uint_nonnil (Z.to_N n)) as H.
  now destruct (N.to_uint (Z.to_N n)).
Qed.

Lemma uint_val_to_uint n : 0 <= n -> uint_val (N.to_uint (Z.to_N n)) 0 = n.
Proof.
  intros H. rewrite uint_val_0.
  change (Pos.of_uint (N.to_uint (Z.to_N n))) with (N.of_uint (N.to_uint (Z.to_N n))).
  rewrite DecimalN.Unsigned.of_to. lia.
Qed.


End DecimalText.

(** ** Numeric-vector decoding *)

Section VectorDecoding.

Lemma has_char_app c x y : has_char c (x ++ y) = has_char c x || has_char c y.
Proof.
  induction x as [|a x IH]; simpl; [reflexivity|].
  rewrite IH. now rewrite orb_assoc.
Qed.

(** Of two pointers into one buffer, the one further on points into
    what the other one sees. *)
Lemma suffix_total a p a' q :
  a ++ p = a' ++ q -> (strlen q <= strlen p)%nat -> suffix q p.
Proof.
  revert a'. induction a as [|x a IH]; intros a' E L; simpl in E.
  - now exists a'.
  - destruct a' as [|y a']; simpl in E.
    + subst q. unfold strlen in L. simpl in L.
      pose proof (strlen_app a p) as La. unfold strlen in La. lia.
    + injection E as _ E. eapply IH; eauto.
Qed.

Lemma ptr_lt_nonempty s q : ptr_lt s q = true -> exists c r, s = String c r.
Proof.
  unfold ptr_lt, strlen. destruct s as [|c r]; simpl.
  - intros H. apply Nat.ltb_lt in H. lia.
  - intros _. now exists c, r.
Qed.

(** The loop never runs out of fuel, and what it appends to [out] is
    what the step-by-step description collects. *)
Lemma scan_loop_collects fuel : forall s q room out,
  (strlen s <= fuel)%nat ->
  exists vs, scan_loop fuel s q room out = (out ++ vs)%list
             /\ collects q s room vs /\ (List.length vs <= room)%nat.
Proof.
  induction fuel as [|fuel IH]; intros s q room out Hf.
  - exists []. simpl. rewrite List.app_nil_r. repeat split; [|lia].
    apply collects_stop. left. unfold ptr_lt.
    apply Nat.ltb_ge. lia.
  - cbn [scan_loop].
    destruct (ptr_lt s q) eqn:Hlt; cbn [andb].
    2:{ exists []. rewrite List.app_nil_r. repeat split; [|simpl; lia].
        apply collects_stop. now left. }
    destruct room as [|room]; cbn [Nat.ltb Nat.leb].
    { exists []. rewrite List.app_nil_r. repeat split; [|simpl; lia].
      apply collects_stop. now right. }
    pose proof (strtod_suffix s) as Hsuf.
    destruct (strtod s) as [v e] eqn:Hd. cbn [snd] in Hsuf.
    destruct (ptr_eq e s) eqn:Heq.
    + apply ptr_eq_suffix in Heq; [|exact Hsuf]. subst e.
      destruct (ptr_lt_nonempty _ _ Hlt) as (c & r & ->).
      destruct (IH r q (S room) out) as (vs & E & C & L).
      { unfold strlen in *. simpl in Hf. lia. }
      exists vs. repeat split; [exact E | | exact L].
      apply collects_skip; [exact Hlt | now rewrite Hd | exact C].
    + assert (strlen e < strlen s)%nat as Hshort.
      { apply suffix_len in Hsuf. unfold ptr_eq in Heq.
        apply Nat.eqb_neq in Heq. lia. }
      destruct (IH e q (S room - 1)%nat (out ++ [v])%list) as (vs & E & C & L);
        [lia|].
      replace (S room - 1)%nat with room in * by lia.
      exists (v :: vs). rewrite E, <- List.app_assoc. simpl.
      repeat split; [|lia].
      eapply collects_take; eauto.
      intros ->. lia.
Qed.

(** The description determines the result. *)
Lemma collects_functional q s room vs :
  collects q s room vs -> forall vs', collects q s room vs' -> vs = vs'.
Proof.
  induction 1 as [s room Hstop | c s room vs Hlt Hfail _ IH
                 | s room v e vs Hlt Hd Hne _ IH]; intros vs' H'.
  - inversion H'; subst; try reflexivity;
      destruct Hstop as [Hstop | Hstop]; congruence.
  - inversion H' as [s0 r0 Hstop | | s0 r0 v0 e0 vs0 Hlt0 Hd0 Hne0 H0]; subst.
    + destruct Hstop; congruence.
    + now apply IH.
    + rewrite Hd0 in Hfail. simpl in Hfail. congruence.
  - inversion H' as [s0 r0 Hstop | c0 s0 r0 vs0 Hlt0 Hfail0 H0
                    | s0 r0 v0 e0 vs0 Hlt0 Hd0 Hne0 H0]; subst.
    + destruct Hstop; congruence.
    + rewrite Hd in Hfail0. simpl in Hfail0. congruence.
    + rewrite Hd in Hd0. injection Hd0 as <- <-. f_equal. now apply IH.
Qed.

Lemma no_open_bracket txt maxn :
  has_char "[" txt = false -> parse_vector_tolerant (Some txt) maxn = [].
Proof.
  intros H. apply strchr_None in H. unfold parse_vector_tolerant.
  now rewrite H.
Qed.

Lemma no_close_bracket txt maxn :
  has_char "]" txt = false -> parse_vector_tolerant (Some txt) maxn = [].
Proof.
  intros H. apply strrchr_None in H. unfold parse_vector_tolerant.
  rewrite H. now destruct (strchr txt "[").
Qed.

Lemma brackets_out_of_order a b maxn :
  has_char "[" a = false -> has_char "]" b = false ->
  parse_vector_tolerant (Some (a ++ String "[" b)) maxn = [].
Proof.
  intros Ha Hb. unfold parse_vector_tolerant.
  rewrite (strchr_first a "[" b Ha).
  destruct (strrchr (a ++ String "[" b) "]") as [q|] eqn:Eq; [|reflexivity].
  destruct (strrchr_Some _ _ _ Eq) as (a' & r & Etxt & -> & Hr).
  destruct (ptr_le (String "]" r) (String "[" b)) eqn:Hle; [reflexivity|].
  exfalso. unfold ptr_le in Hle. apply Nat.leb_gt in Hle.
  destruct (suffix_total a (String "[" b) a' (String "]" r) Etxt) as [pre Hpre];
    [lia|].
  destruct pre as [|x pre]; simpl in Hpre; [discriminate|].
  injection Hpre as _ Hpre. subst b.
  rewrite has_char_app in Hb. simpl in Hb.
  now rewrite orb_true_r in Hb.
Qed.

Lemma between_brackets a b c maxn :
  has_char "[" a = false -> has_char "]" c = false ->
  exists vs,
    parse_vector_tolerant (Some (a ++ String "[" (b ++ String "]" c))) maxn = vs
    /\ collects (String "]" c) (b ++ String "]" c) (Z.to_nat maxn) vs
    /\ (List.length vs <= Z.to_nat maxn)%nat.
Proof.
  intros Ha Hc. unfold parse_vector_tolerant.
  rewrite (strchr_first a "[" _ Ha).
  replace (a ++ String "[" (b ++ String "]" c))
    with ((a ++ String "[" b) ++ String "]" c)
    by (rewrite app_assoc; reflexivity).
  rewrite (strrchr_last _ "]" c Hc).
  assert (ptr_le (String "]" c) (String "[" (b ++ String "]" c)) = false) as ->.
  { unfold ptr_le. apply Nat.leb_gt. unfold strlen. simpl.
    pose proof (strlen_app b (String "]" c)) as L. unfold strlen in L.
    simpl in L. lia. }
  destruct (scan_loop_collects (strlen (b ++ String "]" c)) (b ++ String "]" c)
              (String "]" c) (Z.to_nat maxn) []) as (vs & E & C & L); [lia|].
  exists vs. rewrite E. auto.
Qed.

Lemma app_inv_tail a : forall b e, a ++ e = b ++ e -> a = b.
Proof.
  induction a as [|x a IH]; intros [|y b] e E; simpl in E.
  - reflexivity.
  - apply (f_equal strlen) in E. unfold strlen in E. simpl in E.
    pose proof (strlen_app b e) as L. unfold strlen in L. lia.
  - apply (f_equal strlen) in E. unfold strlen in E. simpl in E.
    pose proof (strlen_app a e) as L. unfold strlen in L. lia.
  - injection E as -> E. f_equal. eapply IH; eauto.
Qed.

Lemma no_bracket_passed pre :
  all_chars not_bracket pre = true -> has_char "]" pre = false.
Proof.
  induction pre as [|x pre IH]; simpl; [reflexivity|].
  intros H. apply andb_true_iff in H. destruct H as [Hx H].
  rewrite (IH H), orb_false_r. unfold not_bracket in Hx.
  now apply negb_true_iff in Hx.
Qed.

(** A value read before the closing bracket ends before it. *)
Lemma strtod_before_bracket s c :
  suffix (String "]" c) s -> suffix (String "]" c) (snd (strtod s)).
Proof.
  intros [p Hp].
  destruct (strtod_stops_at_bracket s) as (pre & Hs & Hpre).
  apply no_bracket_passed in Hpre.
  set (e := snd (strtod s)) in *.
  destruct (Nat.le_gt_cases (strlen (String "]" c)) (strlen e)) as [L|L].
  - apply (suffix_total pre e p (String "]" c)); [congruence | exact L].
  - exfalso.
    destruct (suffix_total p (String "]" c) pre e) as [pre' Hc];
      [congruence | lia |].
    destruct pre' as [|x pre']; simpl in Hc.
    { rewrite <- Hc in L. lia. }
    injection Hc as <- Hc. subst c.
    assert (pre = p ++ String "]" pre') as ->.
    { apply (app_inv_tail _ _ e). rewrite <- Hs, Hp, app_assoc. reflexivity. }
    rewrite has_char_app in Hpre. simpl in Hpre.
    now rewrite orb_true_r in Hpre.
Qed.

(** Every text is of one of the three kinds. *)
Lemma bracket_cases txt :
  has_char "[" txt = false
  \/ (exists a b, txt = a ++ String "[" b
                  /\ has_char "[" a = false /\ has_char "]" b = false)
  \/ (exists a b c, txt = a ++ String "[" (b ++ String "]" c)
                    /\ has_char "[" a = false /\ has_char "]" c = false).
Proof.
  destruct (strchr txt "[") as [p|] eqn:Ep; [|left; now apply strchr_None].
  right. destruct (strchr_Some _ _ _ Ep) as (a & r & -> & -> & Ha).
  destruct (strrchr r "]") as [q|] eqn:Eq.
  - right. destruct (strrchr_Some _ _ _ Eq) as (b & c & -> & -> & Hc).
    now exists a, b, c.
  - left. exists a, r. repeat split; auto. now apply strrchr_None.
Qed.

End VectorDecoding.

(** C5.  Numeric-vector decoding: the result is empty for an absent
    text, for a text without an opening or without a closing bracket,
    and when no closing bracket comes after the first opening one.
    Otherwise, with the first opening bracket after [a] and the last
    closing bracket before [c], the result is what is collected between
    them: at most [maxn] values, each read by [strtod] at a position
    before the closing bracket, every position where nothing can be read
    being passed over by one character; no value is read across a
    closing bracket.  Every text is of one of these kinds.  Decoding
    [[1.0,2.5,bad,3]] with room for ten values gives 1.0, 2.5, 3.0. *)
Theorem C5_vector_decoding :
  (forall maxn, parse_vector_tolerant None maxn = [])
  /\ (forall txt maxn,
        has_char "[" txt = false \/ has_char "]" txt = false ->
        parse_vector_tolerant (Some txt) maxn = [])
  /\ (forall a b maxn,
        has_char "[" a = false -> has_char "]" b = false ->
        parse_vector_tolerant (Some (a ++ String "[" b)) maxn = [])
  /\ (forall a b c maxn,
        has_char "[" a = false -> has_char "]" c = false ->
        exists vs,
          parse_vector_tolerant (Some (a ++ String "[" (b ++ String "]" c))) maxn = vs
          /\ collects (String "]" c) (b ++ String "]" c) (Z.to_nat maxn) vs
          /\ (forall vs', collects (String "]" c) (b ++ String "]" c)
                                   (Z.to_nat maxn) vs' -> vs' = vs)
          /\ (List.length vs <= Z.to_nat maxn)%nat)
  /\ (forall s c,
        suffix (String "]" c) s -> suffix (String "]" c) (snd (strtod s)))
  /\ (forall txt,
        has_char "[" txt = false
        \/ (exists a b, txt = a ++ String "[" b
                        /\ has_char "[" a = false /\ has_char "]" b = false)
        \/ (exists a b c, txt = a ++ String "[" (b ++ String "]" c)
                          /\ has_char "[" a = false /\ has_char "]" c = false))
  /\ parse_vector_tolerant (Some "[1.0,2.5,bad,3]") 10 = [1; 2.5; 3]%float.
Proof.
  split; [reflexivity|].
  split; [intros txt maxn [H|H];
          [now apply no_open_bracket | now apply no_close_bracket]|].
  split; [intros; now apply brackets_out_of_order|].
  split; [|split; [exact strtod_before_bracket
                  |split; [exact bracket_cases | vm_compute; reflexivity]]].
  intros a b c maxn Ha Hc.
  destruct (between_brackets a b c maxn Ha Hc) as (vs & E & C & L).
  exists vs. repeat split; auto.
  intros vs' C'. symmetry. eapply collects_functional; eauto.
Qed.

(** The text of the example, split at its brackets. *)
Lemma C5_vector_decoding_witness :
  exists vs,
    parse_vector_tolerant (Some ("" ++ String "[" ("1.0,2.5,bad,3" ++ String "]" ""))) 10 = vs
    /\ collects (String "]" "") ("1.0,2.5,bad,3" ++ String "]" "") (Z.to_nat 10) vs
    /\ (forall vs', collects (String "]" "") ("1.0,2.5,bad,3" ++ String "]" "")
                             (Z.to_nat 10) vs' -> vs' = vs)
    /\ (List.length vs <= Z.to_nat 10)%nat.
Proof.
  exact (proj1 (proj2 (proj2 (proj2 C5_vector_decoding)))
           "" "1.0,2.5,bad,3" "" 10 eq_refl eq_refl).
Defined.

(** ** Handle decoding *)

Section HandleDecoding.

Lemma strstr_unfold hay k :
  strstr hay k =
  if starts_with k hay then Some hay
  else match hay with
       | EmptyString => None
       | String _ r => strstr r k
       end.
Proof. destruct hay; reflexivity. Qed.

Lemma strstr_absent hay k : ~ contains k hay -> strstr hay k = None.
Proof.
  intros H. destruct (strstr hay k) as [p|] eqn:E; [|reflexivity].
  exfalso. apply H. destruct (strstr_Some _ _ _ E) as (pre & post & -> & ->).
  now exists pre, post.
Qed.



Lemma skip_sep_app sep rest :
  all_chars is_sep sep = true ->
  match rest with String c _ => is_sep c = false | EmptyString => True end ->
  skip_sep (sep ++ rest) = rest.
Proof.
  intros Hs Hr. induction sep as [|c sep IH]; simpl in *.
  - destruct rest as [|c r]; simpl; [reflexivity | now rewrite Hr].
  - apply andb_true_iff in Hs. destruct Hs as [-> Hs]. now apply IH.
Qed.



Lemma try_key_absent hay k : ~ contains k hay -> try_key hay k = None.
Proof. intros H. unfold try_key. now rewrite (strstr_absent _ _ H). Qed.

Lemma key_loop_absent hay : forall ks,
  (forall k, In k ks -> ~ contains k hay) -> key_loop hay ks = None.
Proof.
  induction ks as [|k ks IH]; intros H; simpl; [reflexivity|].
  rewrite try_key_absent by (apply H; now left).
  apply IH. intros k0 H0. apply H. now right.
Qed.











Lemma not_bare txt v c e :
  strtoll txt = (v, String c e) -> snd (strtoll txt) <> "".
Proof. intros ->. discriminate. Qed.


End HandleDecoding.



(** ** The benchmark engine *)

Section Engine.

Variable W : World.

(** Running the pieces of [run_one] one external step at a time. *)
Ltac external_step :=
  match goal with
  | |- context [exec_call ?w ?f ?h ?m ?a ?l] =>
      destruct (exec_call w f h m a l) as [? ?]
  end; cbv beta iota.

Ltac run_engine :=
  cbv beta iota zeta delta
    [Api.bind Api.now_ms Api.paragon_call0 Api.try_gpu_enable
     Api.call_unchecked Api.invoke_call Api.ret Api.lib Api.ticks].

(** Construction always returns. *)
Lemma new_net_any_returns api l a t g e st :
  exists evs r st',
    Api.paragon_new_net_any W api l a t g e st = (evs, Api.Done r st').
Proof.
  unfold Api.paragon_new_net_any.
  destruct (New5 api) as [f|].
  { unfold Api.invoke5. destruct (exec_new5 W f l a t g e (Api.lib st)); eauto. }
  destruct (New3 api) as [f|].
  { unfold Api.invoke3. destruct (exec_new3 W f l a t (Api.lib st)); eauto. }
  destruct (Call api) as [f|].
  { unfold Api.invoke_call. external_step. eauto. }
  unfold Api.ret. eauto.
Qed.

(** A handle that is zero or negative ends the case at once. *)
Lemma run_one_rejects api id dims ndims st evs newr st' :
  Api.paragon_new_net_any W api (json_layers dims ndims) (json_activs ndims)
      (json_trainable ndims) false false st = (evs, Api.Done newr st') ->
  paragon_parse_handle newr <= 0 ->
  Api.run_one W api id dims ndims st
  = (evs, Api.Done (Api.ConstructionFailed newr) st').
Proof.
  intros Hnew Hh. unfold Api.run_one.
  unfold Api.bind at 1. rewrite Hnew.
  apply Z.leb_le in Hh. rewrite Hh. unfold Api.ret.
  now rewrite List.app_nil_r.
Qed.

(** With a usable handle and the dispatcher bound, the case runs to
    its report. *)
Lemma run_one_reports api id dims ndims st evs newr st' f :
  Api.paragon_new_net_any W api (json_layers dims ndims) (json_activs ndims)
      (json_trainable ndims) false false st = (evs, Api.Done newr st') ->
  0 < paragon_parse_handle newr ->
  Call api = Some f ->
  exists r st'',
    Api.run_one W api id dims ndims st
    = ((evs ++ case_calls f (paragon_parse_handle newr))%list,
       Api.Done (Api.Reported r) st'')
    /\ Api.r_speedup r = Api.speedup (Api.r_cpu_ms r) (Api.r_gpu_ms r)
    /\ Api.r_cpu_ms r
       = (Api.ms_of (clock_gettime W (3 + Api.ticks st'))
          - Api.ms_of (clock_gettime W (2 + Api.ticks st')))%float
    /\ Api.r_gpu_ms r
       = (Api.ms_of (clock_gettime W (5 + Api.ticks st'))
          - Api.ms_of (clock_gettime W (4 + Api.ticks st')))%float
    /\ (Api.r_mae r, Api.r_max r)
       = Api.compare_outputs (Api.r_outA r) (Api.r_outB r).
Proof.
  intros Hnew Hh Hcall. unfold Api.run_one.
  unfold Api.bind at 1. rewrite Hnew.
  apply Z.leb_gt in Hh. rewrite Hh.
  run_engine. rewrite Hcall. cbv beta iota.
  repeat external_step.
  match goal with
  | |- context [Api.compare_outputs ?a ?b] =>
      destruct (Api.compare_outputs a b) as [mae mx] eqn:Hcmp
  end.
  cbv beta iota.
  eexists. eexists. split; [reflexivity|].
  split; [reflexivity|]. split; [reflexivity|]. split; [reflexivity|].
  cbn [Api.r_mae Api.r_max Api.r_outA Api.r_outB].
  now rewrite Hcmp.
Qed.

(** With a usable handle and no dispatcher, the first [Forward] jumps
    through a null pointer. *)
Lemma run_one_faults api id dims ndims st evs newr st' :
  Api.paragon_new_net_any W api (json_layers dims ndims) (json_activs ndims)
      (json_trainable ndims) false false st = (evs, Api.Done newr st') ->
  0 < paragon_parse_handle newr ->
  Call api = None ->
  Api.run_one W api id dims ndims st = (evs, Api.Fault).
Proof.
  intros Hnew Hh Hcall. unfold Api.run_one.
  unfold Api.bind at 1. rewrite Hnew.
  apply Z.leb_gt in Hh. rewrite Hh.
  run_engine. rewrite Hcall. cbv beta iota.
  now rewrite !List.app_nil_r.
Qed.

(** The calls construction makes are none of the later ones. *)
Lemma new_net_any_events api l a t g e st :
  let evs := fst (Api.paragon_new_net_any W api l a t g e st) in
  evs = [] \/ (exists f, evs = [EvNew5 f l a t g e])
  \/ (exists f, evs = [EvNew3 f l a t])
  \/ (exists f args, evs = [EvCall f 0 "NewNetworkFloat32" args]).
Proof.
  cbv zeta. unfold Api.paragon_new_net_any.
  destruct (New5 api) as [f|].
  { right; left. exists f. unfold Api.invoke5.
    now destruct (exec_new5 W f l a t g e (Api.lib st)). }
  destruct (New3 api) as [f|].
  { right; right; left. exists f. unfold Api.invoke3.
    now destruct (exec_new3 W f l a t (Api.lib st)). }
  destruct (Call api) as [f|]; [|now left].
  right; right; right. unfold Api.invoke_call. external_step.
  cbn [fst]. eauto.
Qed.

Lemma forward_args_eq xin : Api.forward_args xin = "[" ++ xin ++ "]".
Proof.
  unfold Api.forward_args, snprintf. apply truncate_all.
  change ("[" ++ xin ++ "]") with (String "[" (xin ++ "]")).
  unfold strlen. simpl. pose proof (strlen_app xin "]") as L.
  unfold strlen in L. simpl in L. lia.
Qed.

(** Without any capability nothing is called and nothing is built. *)
Lemma run_cases_unbound cases st :
  Api.run_cases W (Api.api_zero) cases st
  = ([], Api.Done (map (fun _ => Api.ConstructionFailed None) cases) st).
Proof.
  induction cases as [|[id dims] cases IH]; [reflexivity|].
  cbn [Api.run_cases map]. unfold Api.bind at 1.
  rewrite (run_one_rejects Api.api_zero id dims (List.length dims) st [] None st);
    [|reflexivity|vm_compute; discriminate].
  unfold Api.bind at 1. rewrite IH. reflexivity.
Qed.

End Engine.

(** C3.  When [dlopen] fails, [paragon_load] still returns 1 and leaves
    the table with its three function references absent; on that table
    [paragon_call0] and [paragon_new_net_any] return an absent reply
    without calling anything; and [main] runs its ten cases, each one
    given up at construction, makes no call into a library and returns
    exit status 0. *)
Theorem C3_load_failure (W : World) (so_path : option string) :
  dlopen W (Api.effective_path so_path) = None ->
  let api := snd (Api.paragon_load W so_path) in
  fst (Api.paragon_load W so_path) = 1
  /\ (New5 api = None /\ New3 api = None /\ Call api = None)
  /\ (forall h method st,
        Api.paragon_call0 W api h method st = ([], Api.Done None st))
  /\ (forall l a t g e st,
        Api.paragon_new_net_any W api l a t g e st = ([], Api.Done None st))
  /\ (forall argv st,
        Api.so_of_argv argv = so_path ->
        Api.main W argv st
        = ([], Api.Done (0, repeat (Api.ConstructionFailed None) 10) st)).
Proof.
  intros Hfail. unfold Api.paragon_load. rewrite Hfail. cbn [fst snd].
  repeat split.
  intros argv st E. unfold Api.main. rewrite E.
  unfold Api.paragon_load. rewrite Hfail.
  unfold Api.bind. rewrite run_cases_unbound. reflexivity.
Qed.

Lemma C3_load_failure_witness :
  Api.main Worlds.nolib ["bench"; "missing.so"] (Worlds.start (tt : lib_state Worlds.nolib))
  = ([], Api.Done (0, repeat (Api.ConstructionFailed None) 10)
                  (Worlds.start (tt : lib_state Worlds.nolib))).
Proof.
  exact (proj2 (proj2 (proj2 (proj2
           (C3_load_failure Worlds.nolib (Some "missing.so") eq_refl))))
           ["bench"; "missing.so"] (Worlds.start (tt : lib_state Worlds.nolib))
           eq_refl).
Defined.

(** C10.  On the empty string [strtoll] converts nothing and stops at
    the terminator, so handle decoding returns 0 and not -1; [run_one]
    gives such a reply up all the same, through its test [h <= 0]. *)
Theorem C10_empty_reply :
  strtoll "" = (0, "")
  /\ paragon_parse_handle (Some "") = 0
  /\ paragon_parse_handle (Some "") <> -1
  /\ (forall (W : World) api id dims ndims st evs st',
        Api.paragon_new_net_any W api (json_layers dims ndims) (json_activs ndims)
            (json_trainable ndims) false false st = (evs, Api.Done (Some "") st') ->
        Api.run_one W api id dims ndims st
        = (evs, Api.Done (Api.ConstructionFailed (Some "")) st')).
Proof.
  repeat split; try discriminate.
  intros W api id dims ndims st evs st' H.
  apply run_one_rejects; [exact H | vm_compute; discriminate].
Qed.

Lemma C10_empty_reply_witness :
  Api.run_one (Worlds.replying (Some "")) Worlds.demo_api "S1" [784; 64; 10] 3
    (Worlds.start (O : lib_state (Worlds.replying (Some ""))))
  = ([EvNew5 5%N (json_layers [784; 64; 10] 3) (json_activs 3) (json_trainable 3)
             false false],
     Api.Done (Api.ConstructionFailed (Some ""))
              (Worlds.start (O : lib_state (Worlds.replying (Some ""))))).
Proof.
  exact (proj2 (proj2 (proj2 C10_empty_reply))
           (Worlds.replying (Some "")) Worlds.demo_api "S1" [784; 64; 10] 3%nat
           (Worlds.start (O : lib_state (Worlds.replying (Some "")))) _ _ eq_refl).
Defined.

(** ** The construction facade *)

Section Facade.

Variable W : World.

(** The argument list of the generic route fits its buffer. *)
Lemma facade_args_fit l a t g e :
  snprintf (strlen l + strlen a + strlen t + 64)
    ("[" ++ l ++ "," ++ a ++ "," ++ t ++ "," ++ Api.json_bool g ++ ","
         ++ Api.json_bool e ++ "]")
  = "[" ++ l ++ "," ++ a ++ "," ++ t ++ "," ++ Api.json_bool g ++ ","
        ++ Api.json_bool e ++ "]".
Proof.
  unfold snprintf. apply truncate_all.
  change ("[" ++ l ++ "," ++ a ++ "," ++ t ++ "," ++ Api.json_bool g ++ ","
              ++ Api.json_bool e ++ "]")
    with (String "[" (l ++ String "," (a ++ String "," (t ++ String ","
            (Api.json_bool g ++ String "," (Api.json_bool e ++ "]")))))).
  unfold strlen. cbn [String.length].
  repeat (rewrite (strlen_app : forall x y, String.length (x ++ y) = _);
          unfold strlen; cbn [String.length]).
  destruct g, e; cbn [Api.json_bool String.length]; lia.
Qed.

Lemma facade_branch api l a t g e st :
  branch_of (fst (Api.paragon_new_net_any W api l a t g e st))
  = select_strategy (bound (New5 api)) (bound (New3 api)) (bound (Call api)).
Proof.
  unfold Api.paragon_new_net_any.
  destruct (New5 api) as [f|].
  { unfold Api.invoke5. now destruct (exec_new5 W f l a t g e (Api.lib st)). }
  destruct (New3 api) as [f|].
  { unfold Api.invoke3. now destruct (exec_new3 W f l a t (Api.lib st)). }
  destruct (Call api) as [f|]; [|reflexivity].
  unfold Api.invoke_call.
  now destruct (exec_call W f 0 "NewNetworkFloat32" _ (Api.lib st)).
Qed.

End Facade.

(** C6.  The facade tries its routes in a fixed order.  With the
    5-argument constructor bound it makes that one call, with the three
    descriptions and the two flags as given; otherwise with the
    3-argument constructor bound it makes that one call with the three
    descriptions only; otherwise with the dispatcher bound it makes one
    [Call] on handle 0, method [NewNetworkFloat32], whose argument text
    is the list of the five values in order; otherwise it calls nothing
    and returns an absent reply.  [run_one] starts with the facade, the
    two flags being false. *)
Theorem C6_construction_priority (W : World) api l a t g e st :
  (forall f, New5 api = Some f ->
     Api.paragon_new_net_any W api l a t g e st = Api.invoke5 W f l a t g e st
     /\ fst (Api.paragon_new_net_any W api l a t g e st) = [EvNew5 f l a t g e])
  /\ (forall f, New5 api = None -> New3 api = Some f ->
        Api.paragon_new_net_any W api l a t g e st = Api.invoke3 W f l a t st
        /\ fst (Api.paragon_new_net_any W api l a t g e st) = [EvNew3 f l a t])
  /\ (forall f, New5 api = None -> New3 api = None -> Call api = Some f ->
        let args := "[" ++ l ++ "," ++ a ++ "," ++ t ++ ","
                        ++ (if g then "true" else "false") ++ ","
                        ++ (if e then "true" else "false") ++ "]" in
        Api.paragon_new_net_any W api l a t g e st
        = Api.invoke_call W f 0 "NewNetworkFloat32" args st
        /\ fst (Api.paragon_new_net_any W api l a t g e st)
           = [EvCall f 0 "NewNetworkFloat32" args])
  /\ (New5 api = None -> New3 api = None -> Call api = None ->
        Api.paragon_new_net_any W api l a t g e st = ([], Api.Done None st))
  /\ (forall id dims ndims,
        exists evs newr st',
          Api.paragon_new_net_any W api (json_layers dims ndims) (json_activs ndims)
              (json_trainable ndims) false false st = (evs, Api.Done newr st')
          /\ exists more o,
               Api.run_one W api id dims ndims st = ((evs ++ more)%list, o)).
Proof.
  split; [|split; [|split; [|split]]].
  - intros f H5. unfold Api.paragon_new_net_any. rewrite H5.
    split; [reflexivity|]. unfold Api.invoke5.
    now destruct (exec_new5 W f l a t g e (Api.lib st)).
  - intros f H5 H3. unfold Api.paragon_new_net_any. rewrite H5, H3.
    split; [reflexivity|]. unfold Api.invoke3.
    now destruct (exec_new3 W f l a t (Api.lib st)).
  - intros f H5 H3 Hc args. unfold Api.paragon_new_net_any.
    rewrite H5, H3, Hc. rewrite facade_args_fit.
    split; [reflexivity|]. unfold Api.invoke_call.
    now destruct (exec_call W f 0 "NewNetworkFloat32" _ (Api.lib st)).
  - intros H5 H3 Hc. unfold Api.paragon_new_net_any. now rewrite H5, H3, Hc.
  - intros id dims ndims.
    destruct (new_net_any_returns W api (json_layers dims ndims) (json_activs ndims)
                (json_trainable ndims) false false st) as (evs & newr & st' & Hnew).
    exists evs, newr, st'. split; [exact Hnew|].
    destruct (Z_le_gt_dec (paragon_parse_handle newr) 0) as [Hle|Hgt].
    + exists [], (Api.Done (Api.ConstructionFailed newr) st').
      rewrite List.app_nil_r. now apply run_one_rejects.
    + destruct (Call api) as [f|] eqn:Hc.
      * destruct (run_one_reports W api id dims ndims st evs newr st' f Hnew)
          as (r & st'' & Hrun & _); [lia | exact Hc |].
        rewrite Hrun. eauto.
      * exists [], Api.Fault. rewrite List.app_nil_r.
        apply run_one_faults with (newr := newr) (st' := st'); auto. lia.
Qed.

(** The demonstration library has the 5-argument constructor. *)
Lemma C6_construction_priority_witness :
  fst (Api.paragon_new_net_any Worlds.demo Worlds.demo_api
         "[]" "[]" "[]" false false (Worlds.start (O : lib_state Worlds.demo)))
  = [EvNew5 5%N "[]" "[]" "[]" false false].
Proof.
  exact (proj2 (proj1 (C6_construction_priority Worlds.demo Worlds.demo_api
                         "[]" "[]" "[]" false false
                         (Worlds.start (O : lib_state Worlds.demo)))
                 5%N eq_refl)).
Defined.

(** C9.  Which route the facade takes is a function of which of the
    three capabilities are bound, and of nothing else: not of the
    world, the arguments or the state the call starts in.  The facade
    does not write to the table, so a second run on it, in whatever
    state the first one left, goes the same way. *)
Theorem C9_strategy_is_pure (W : World) api l a t g e st :
  branch_of (fst (Api.paragon_new_net_any W api l a t g e st))
  = select_strategy (bound (New5 api)) (bound (New3 api)) (bound (Call api))
  /\ (forall (W' : World) l' a' t' g' e' (st' : Api.state W'),
        branch_of (fst (Api.paragon_new_net_any W' api l' a' t' g' e' st'))
        = branch_of (fst (Api.paragon_new_net_any W api l a t g e st)))
  /\ exists evs1 r1 st1 evs2 r2 st2,
       Api.paragon_new_net_any W api l a t g e st = (evs1, Api.Done r1 st1)
       /\ Api.paragon_new_net_any W api l a t g e st1 = (evs2, Api.Done r2 st2)
       /\ branch_of evs2 = branch_of evs1.
Proof.
  split; [apply facade_branch|].
  split; [intros; now rewrite !facade_branch|].
  destruct (new_net_any_returns W api l a t g e st) as (evs1 & r1 & st1 & H1).
  destruct (new_net_any_returns W api l a t g e st1) as (evs2 & r2 & st2 & H2).
  exists evs1, r1, st1, evs2, r2, st2. repeat split; auto.
  pose proof (facade_branch W api l a t g e st) as B1.
  pose proof (facade_branch W api l a t g e st1) as B2.
  rewrite H1 in B1. rewrite H2 in B2. cbn [fst] in *. congruence.
Qed.

(** ** The forward pass *)

Section Forward.

Variable W : World.

Lemma construction_not_forward api l a t g e st ev :
  In ev (fst (Api.paragon_new_net_any W api l a t g e st)) -> is_forward ev = false.
Proof.
  destruct (new_net_any_events W api l a t g e st)
    as [E|[[f E]|[[f E]|[f [args E]]]]]; rewrite E; simpl;
    intros H; try tauto; destruct H as [<-|[]]; reflexivity.
Qed.

Lemma forwards_of_case f h :
  filter is_forward (case_calls f h)
  = [EvCall f h "Forward" (Api.forward_args json_fixed784);
     EvCall f h "Forward" (Api.forward_args json_fixed784)].
Proof. reflexivity. Qed.

(** All the calls of one case. *)
Lemma run_one_events api id dims ndims st :
  exists evs newr st',
    Api.paragon_new_net_any W api (json_layers dims ndims) (json_activs ndims)
        (json_trainable ndims) false false st = (evs, Api.Done newr st')
    /\ (fst (Api.run_one W api id dims ndims st) = evs
        \/ exists f, Call api = Some f /\ 0 < paragon_parse_handle newr
                     /\ fst (Api.run_one W api id dims ndims st)
                        = (evs ++ case_calls f (paragon_parse_handle newr))%list).
Proof.
  destruct (new_net_any_returns W api (json_layers dims ndims) (json_activs ndims)
              (json_trainable ndims) false false st) as (evs & newr & st' & Hnew).
  exists evs, newr, st'. split; [exact Hnew|].
  destruct (Z_le_gt_dec (paragon_parse_handle newr) 0) as [Hle|Hgt].
  { left. now rewrite (run_one_rejects W api id dims ndims st evs newr st'). }
  destruct (Call api) as [f|] eqn:Hc.
  - right. exists f. split; [reflexivity|]. split; [lia|].
    destruct (run_one_reports W api id dims ndims st evs newr st' f Hnew)
      as (r & st'' & Hrun & _); [lia | exact Hc |].
    now rewrite Hrun.
  - left. rewrite (run_one_faults W api id dims ndims st evs newr st'); auto. lia.
Qed.

(** A [Forward] call of a case is one of the two of [run_one]. *)
Lemma forward_of_run_one api id dims ndims st ev :
  In ev (fst (Api.run_one W api id dims ndims st)) -> is_forward ev = true ->
  exists f h, ev = EvCall f h "Forward" (Api.forward_args json_fixed784).
Proof.
  intros Hin Hfw.
  destruct (run_one_events api id dims ndims st)
    as (cev & newr & st' & Hnew & [E | (f & Hc & Hh & E)]); rewrite E in Hin.
  - pose proof (construction_not_forward api (json_layers dims ndims)
                  (json_activs ndims) (json_trainable ndims) false false st ev) as Hn.
    rewrite Hnew in Hn. rewrite (Hn Hin) in Hfw. discriminate.
  - apply in_app_or in Hin. destruct Hin as [Hin|Hin].
    + pose proof (construction_not_forward api (json_layers dims ndims)
                    (json_activs ndims) (json_trainable ndims) false false st ev) as Hn.
      rewrite Hnew in Hn. rewrite (Hn Hin) in Hfw. discriminate.
    + assert (In ev (filter is_forward (case_calls f (paragon_parse_handle newr))))
        as Hf by (apply filter_In; auto).
      rewrite forwards_of_case in Hf.
      exists f, (paragon_parse_handle newr).
      destruct Hf as [<-|[<-|[]]]; reflexivity.
Qed.

(** The calls of the suite are the calls of its cases. *)
Lemma run_cases_events api cases : forall st ev,
  In ev (fst (Api.run_cases W api cases st)) ->
  exists id dims st',
    In (id, dims) cases
    /\ In ev (fst (Api.run_one W api id dims (List.length dims) st')).
Proof.
  induction cases as [|[id dims] cases IH]; intros st ev; [intros []|].
  cbn [Api.run_cases]. unfold Api.bind at 1.
  destruct (Api.run_one W api id dims (List.length dims) st) as [ev1 [r st1|]] eqn:E1.
  - unfold Api.bind at 1.
    destruct (Api.run_cases W api cases st1) as [ev2 [rs st2|]] eqn:E2;
      cbn [fst Api.ret]; rewrite ?List.app_nil_r; intros Hin;
      apply in_app_or in Hin; destruct Hin as [Hin|Hin].
    + exists id, dims, st. rewrite E1. split; [now left | exact Hin].
    + destruct (IH st1 ev) as (id' & dims' & st' & Hc & Hev);
        [rewrite E2; exact Hin|].
      exists id', dims', st'. split; [now right | exact Hev].
    + exists id, dims, st. rewrite E1. split; [now left | exact Hin].
    + destruct (IH st1 ev) as (id' & dims' & st' & Hc & Hev);
        [rewrite E2; exact Hin|].
      exists id', dims', st'. split; [now right | exact Hev].
  - cbn [fst]. intros Hin. exists id, dims, st. rewrite E1.
    split; [now left | exact Hin].
Qed.

End Forward.

(** The text of the input vector: two brackets around 784 literals of
    six decimals, separated by commas. *)
Lemma fixed784_text :
  json_fixed784 = "[[" ++ String.concat "," (map fmt_f6 fixed784_values) ++ "]]"
  /\ List.length (map fmt_f6 fixed784_values) = 784%nat
  /\ forallb is_f6_literal (map fmt_f6 fixed784_values) = true.
Proof. split; [|split]; vm_compute; reflexivity. Qed.

(** C2.  In every case, whatever the shape, the library and the state,
    and so all through [main], each [Forward] call carries the same
    argument text: the argument list [[ X ]] whose one argument [X] is
    the input vector as a batch of one sample, [[[ v0,...,v783 ]]], 784
    literals between one outer and one inner pair of brackets.  A case
    that gets a usable handle and has the dispatcher makes exactly two
    such calls. *)
Theorem C2_forward_argument (W : World) api id dims ndims st :
  let evs := fst (Api.run_one W api id dims ndims st) in
  let lits := map fmt_f6 fixed784_values in
  let X := "[[" ++ String.concat "," lits ++ "]]" in
  (forall ev, In ev evs -> is_forward ev = true ->
     exists f h, ev = EvCall f h "Forward" ("[" ++ X ++ "]"))
  /\ (forall argv st0 ev,
        In ev (fst (Api.main W argv st0)) -> is_forward ev = true ->
        exists f h, ev = EvCall f h "Forward" ("[" ++ X ++ "]"))
  /\ json_fixed784 = X
  /\ List.length lits = 784%nat
  /\ forallb is_f6_literal lits = true
  /\ (forall f cev newr st',
        Api.paragon_new_net_any W api (json_layers dims ndims) (json_activs ndims)
            (json_trainable ndims) false false st = (cev, Api.Done newr st') ->
        0 < paragon_parse_handle newr -> Call api = Some f ->
        filter is_forward evs
        = [EvCall f (paragon_parse_handle newr) "Forward" ("[" ++ X ++ "]");
           EvCall f (paragon_parse_handle newr) "Forward" ("[" ++ X ++ "]")]).
Proof.
  intros evs lits X.
  destruct fixed784_text as (Htext & Hlen & Hlit).
  fold lits in Htext, Hlen, Hlit. fold X in Htext.
  assert (Api.forward_args json_fixed784 = "[" ++ X ++ "]") as Hargs
    by (rewrite forward_args_eq, Htext; reflexivity).
  split; [|split; [|split; [exact Htext|split; [exact Hlen|split; [exact Hlit|]]]]].
  - intros ev Hin Hfw. subst evs. rewrite <- Hargs.
    eapply forward_of_run_one; eauto.
  - intros argv st0 ev Hin Hfw. rewrite <- Hargs.
    unfold Api.main in Hin.
    destruct (Api.paragon_load W (Api.so_of_argv argv)) as [status api0].
    unfold Api.bind in Hin.
    destruct (Api.run_cases W api0 Api.suite st0) as [evs0 [rs st1|]] eqn:E;
      cbn [fst Api.ret] in Hin; rewrite ?List.app_nil_r in Hin;
      (destruct (run_cases_events W api0 Api.suite st0 ev)
         as (id' & dims' & st' & _ & Hev); [rewrite E; exact Hin|]);
      eapply forward_of_run_one; eauto.
  - intros f cev newr st' Hnew Hh Hc. subst evs.
    destruct (run_one_reports W api id dims ndims st cev newr st' f Hnew Hh Hc)
      as (r & st'' & Hrun & _).
    rewrite Hrun. cbn [fst]. rewrite filter_app, forwards_of_case, Hargs.
    assert (filter is_forward cev = []) as ->; [|reflexivity].
    pose proof (construction_not_forward W api (json_layers dims ndims)
                  (json_activs ndims) (json_trainable ndims) false false st) as Hn.
    rewrite Hnew in Hn. cbn [fst] in Hn.
    clear - Hn. induction cev as [|x cev IH]; [reflexivity|].
    cbn [filter]. rewrite (Hn x (or_introl eq_refl)).
    apply IH. intros ev H. apply Hn. now right.
Qed.

(** The first case of the suite against the demonstration library. *)
Lemma C2_forward_argument_witness :
  let newr := Some ("{" ++ quoted "handle" ++ ": 7}") in
  let X := "[[" ++ String.concat "," (map fmt_f6 fixed784_values) ++ "]]" in
  filter is_forward
    (fst (Api.run_one Worlds.demo Worlds.demo_api "S1" [784; 64; 10] 3
            (Worlds.start (O : lib_state Worlds.demo))))
  = [EvCall 9%N (paragon_parse_handle newr) "Forward" ("[" ++ X ++ "]");
     EvCall 9%N (paragon_parse_handle newr) "Forward" ("[" ++ X ++ "]")].
Proof.
  exact (proj2 (proj2 (proj2 (proj2 (proj2
           (C2_forward_argument Worlds.demo Worlds.demo_api "S1" [784; 64; 10] 3%nat
              (Worlds.start (O : lib_state Worlds.demo)))))))
           9%N
           [EvNew5 5%N (json_layers [784; 64; 10] 3) (json_activs 3)
                   (json_trainable 3) false false]
           (Some ("{" ++ quoted "handle" ++ ": 7}"))
           (Worlds.start (O : lib_state Worlds.demo))
           eq_refl eq_refl eq_refl).
Defined.

(** ** Speedup *)

Section Speedup.

Lemma positive_is_nonzero (g : float) :
  (0 <? g)%float = true -> (g =? 0)%float = false.
Proof.
  rewrite ltb_spec, eqb_spec.
  change (Prim2SF 0) with (S754_zero false).
  destruct (Prim2SF g) as [s|s| |s m e]; cbn; try discriminate; auto.
  all: destruct s; cbn; auto; discriminate.
Qed.

Lemma zero_is_not_positive (g : float) :
  (g =? 0)%float = true -> (0 <? g)%float = false.
Proof.
  intros H. destruct (0 <? g)%float eqn:E; [|reflexivity].
  apply positive_is_nonzero in E. congruence.
Qed.

(** Whatever a case reports came out of the full sequence of steps. *)
Lemma reported_case (W : World) api id dims ndims st evs r st'' :
  Api.run_one W api id dims ndims st = (evs, Api.Done (Api.Reported r) st'') ->
  exists st' : Api.state W,
    Api.r_speedup r = Api.speedup (Api.r_cpu_ms r) (Api.r_gpu_ms r)
    /\ Api.r_cpu_ms r
       = (Api.ms_of (clock_gettime W (3 + Api.ticks st'))
          - Api.ms_of (clock_gettime W (2 + Api.ticks st')))%float
    /\ Api.r_gpu_ms r
       = (Api.ms_of (clock_gettime W (5 + Api.ticks st'))
          - Api.ms_of (clock_gettime W (4 + Api.ticks st')))%float
    /\ (Api.r_mae r, Api.r_max r)
       = Api.compare_outputs (Api.r_outA r) (Api.r_outB r).
Proof.
  intros Hrun.
  destruct (new_net_any_returns W api (json_layers dims ndims) (json_activs ndims)
              (json_trainable ndims) false false st) as (cev & newr & st' & Hnew).
  exists st'.
  destruct (Z_le_gt_dec (paragon_parse_handle newr) 0) as [Hle|Hgt].
  { rewrite (run_one_rejects W api id dims ndims st cev newr st' Hnew Hle) in Hrun.
    discriminate. }
  destruct (Call api) as [f|] eqn:Hc.
  - destruct (run_one_reports W api id dims ndims st cev newr st' f Hnew)
      as (r' & st2 & Hrun' & Hr); [lia | exact Hc |].
    rewrite Hrun' in Hrun. injection Hrun as _ <- _. exact Hr.
  - rewrite (run_one_faults W api id dims ndims st cev newr st') in Hrun;
      auto; [discriminate | lia].
Qed.

End Speedup.

(** C8.  The speedup a case reports is computed from its two elapsed
    times, each the difference of two readings of the clock: it is the
    baseline time divided by the accelerated time when the latter is
    positive, and 0 when the latter is 0 (as whenever it is not
    positive).  The division is only ever made by a positive, hence
    nonzero, divisor. *)
Theorem C8_speedup_ratio :
  (forall cpu_ms gpu_ms : float,
     ((0 <? gpu_ms)%float = true ->
        Api.speedup cpu_ms gpu_ms = (cpu_ms / gpu_ms)%float
        /\ (gpu_ms =? 0)%float = false)
     /\ ((gpu_ms =? 0)%float = true -> Api.speedup cpu_ms gpu_ms = 0%float)
     /\ ((0 <? gpu_ms)%float = false -> Api.speedup cpu_ms gpu_ms = 0%float))
  /\ (forall (W : World) api id dims ndims st evs r st'',
        Api.run_one W api id dims ndims st = (evs, Api.Done (Api.Reported r) st'') ->
        Api.r_speedup r = Api.speedup (Api.r_cpu_ms r) (Api.r_gpu_ms r)
        /\ exists k,
             Api.r_cpu_ms r = (Api.ms_of (clock_gettime W (3 + k))
                               - Api.ms_of (clock_gettime W (2 + k)))%float
             /\ Api.r_gpu_ms r = (Api.ms_of (clock_gettime W (5 + k))
                                  - Api.ms_of (clock_gettime W (4 + k)))%float).
Proof.
  split.
  - intros cpu_ms gpu_ms. unfold Api.speedup. split; [|split].
    + intros H. rewrite H. split; [reflexivity | now apply positive_is_nonzero].
    + intros H. now rewrite (zero_is_not_positive _ H).
    + intros H. now rewrite H.
  - intros W api id dims ndims st evs r st'' Hrun.
    destruct (reported_case W api id dims ndims st evs r st'' Hrun)
      as (st' & Hs & Hc & Hg & _).
    split; [exact Hs|]. exists (Api.ticks st'). auto.
Qed.

(** Against the demonstration library the clock advances a second per
    reading, so both passes take 1000 ms. *)
Lemma C8_speedup_ratio_witness :
  Api.speedup 1000 1000 = (1000 / 1000)%float /\ (1000 =? 0)%float = false.
Proof.
  exact (proj1 (proj1 C8_speedup_ratio 1000%float 1000%float) eq_refl).
Defined.

(** ** Divergence metrics *)

Section Metrics.

(** The order of [double]: if [a < b] and [a < c] does not hold, then
    [b < c] does not hold either ([c] is below [b] or not a number). *)
Lemma SFltb_chain a b c :
  SFltb a b = true -> SFltb a c = false -> SFltb b c = false.
Proof.
  unfold SFltb, SFcompare.
  destruct a as [sa|sa| |sa ma ea], b as [sb|sb| |sb mb eb],
           c as [sc|sc| |sc mc ec];
    try destruct sa; try destruct sb; try destruct sc;
    try reflexivity; try discriminate.
  all: change (Pos.compare_cont Eq) with Pos.compare.
  all: destruct (Z.compare_spec ea eb), (Z.compare_spec ea ec),
                (Z.compare_spec eb ec); try lia; try reflexivity; try discriminate.
  all: destruct (Pos.compare_spec ma mb), (Pos.compare_spec ma mc),
                (Pos.compare_spec mb mc); cbn;
         try lia; try reflexivity; try discriminate.
Qed.

Lemma ltb_chain (a b c : float) :
  (a <? b)%float = true -> (a <? c)%float = false -> (b <? c)%float = false.
Proof. rewrite !ltb_spec. apply SFltb_chain. Qed.

Lemma ltb_irrefl (a : float) : (a <? a)%float = false.
Proof.
  rewrite ltb_spec. unfold SFltb, SFcompare.
  destruct (Prim2SF a) as [s|s| |s m e]; try destruct s; try reflexivity.
  all: rewrite Z.compare_refl; change (Pos.compare_cont Eq) with Pos.compare;
    now rewrite Pos.compare_refl.
Qed.

(** The loop reads the arrays where the decoder wrote them. *)
Lemma nth_array_of va i : nth i (Api.array_of va) 0%float = nth i va 0%float.
Proof.
  unfold Api.array_of.
  destruct (Nat.lt_ge_cases i (List.length va)) as [H|H].
  - now rewrite app_nth1.
  - rewrite app_nth2 by exact H. rewrite nth_repeat.
    symmetry. now apply nth_overflow.
Qed.

Lemma fold_left_pointwise {S A : Type} (f g : S -> A -> S) l :
  (forall st x, f st x = g st x) ->
  forall init, fold_left f l init = fold_left g l init.
Proof.
  intros H. induction l as [|x l IH]; intros init; simpl; [reflexivity|].
  now rewrite H, IH.
Qed.

Lemma fold_indexed {S A : Type} (step : S -> A -> S) (g : nat -> A) l : forall init,
  fold_left (fun st i => step st (g i)) l init = fold_left step (map g l) init.
Proof. induction l as [|i l IH]; intros init; simpl; [reflexivity | apply IH]. Qed.

Lemma index_combine (g : float -> float -> float) n : forall xs ys,
  (n <= List.length xs)%nat -> (n <= List.length ys)%nat ->
  map (fun i => g (nth i xs 0%float) (nth i ys 0%float)) (seq 0 n)
  = map (fun p => g (fst p) (snd p)) (combine (firstn n xs) (firstn n ys)).
Proof.
  induction n as [|n IH]; intros xs ys Hx Hy; [reflexivity|].
  destruct xs as [|x xs]; [simpl in Hx; lia|].
  destruct ys as [|y ys]; [simpl in Hy; lia|].
  cbn [seq map firstn combine fst snd nth]. f_equal.
  rewrite <- seq_shift, map_map. cbn [nth].
  apply IH; simpl in *; lia.
Qed.

(** The two running values of the loop, one at a time. *)
Lemma fold_two ds : forall s m,
  fold_left (fun (st : float * float) d =>
               let '(mae, mx) := st in
               ((mae + d)%float, if (mx <? d)%float then d else mx)) ds (s, m)
  = (fold_left PrimFloat.add ds s,
     fold_left (fun mx d => if (mx <? d)%float then d else mx) ds m).
Proof. induction ds as [|d ds IH]; intros s m; simpl; [reflexivity | apply IH]. Qed.

Lemma diff_loop_folds n va vb :
  (n <= List.length va)%nat -> (n <= List.length vb)%nat ->
  let ds := map (fun p => abs (fst p - snd p)%float)
                (combine (firstn n va) (firstn n vb)) in
  Api.diff_loop n (Api.array_of va) (Api.array_of vb)
  = (fold_left PrimFloat.add ds 0%float,
     fold_left (fun mx d => if (mx <? d)%float then d else mx) ds 0%float).
Proof.
  intros Ha Hb ds. unfold Api.diff_loop, for_loop.
  rewrite <- fold_two. subst ds.
  rewrite <- (index_combine (fun x y => abs (x - y)%float) n va vb Ha Hb).
  rewrite <- fold_indexed.
  apply fold_left_pointwise. intros [mae mx] i.
  now rewrite !nth_array_of.
Qed.

(** The running maximum is one of the values seen, or its start, and
    none of the values seen is above it. *)
Lemma running_max ds : forall m seen,
  (forall d, In d seen -> (m <? d)%float = false) ->
  let m' := fold_left (fun mx d => if (mx <? d)%float then d else mx) ds m in
  (m' = m \/ In m' ds)
  /\ (forall d, In d (seen ++ ds)%list -> (m' <? d)%float = false).
Proof.
  induction ds as [|d ds IH]; intros m seen Hseen; cbn [fold_left].
  - split; [now left|]. intros d Hd. rewrite List.app_nil_r in Hd. auto.
  - destruct (IH (if (m <? d)%float then d else m) (seen ++ [d])%list)
      as [Hin Hmax].
    + intros x Hx. apply in_app_or in Hx.
      destruct (m <? d)%float eqn:E.
      * destruct Hx as [Hx|[<-|[]]];
          [eapply ltb_chain; eauto | apply ltb_irrefl].
      * destruct Hx as [Hx|[<-|[]]]; auto.
    + split.
      * destruct Hin as [Hin|Hin]; [|right; now right].
        rewrite Hin. destruct (m <? d)%float; [right; now left | now left].
      * intros x Hx. apply Hmax. rewrite <- List.app_assoc. exact Hx.
Qed.

Lemma metrics_spec va vb :
  fst (Api.metrics va vb) = mean_abs_diff va vb
  /\ is_max_of (abs_diffs va vb) (snd (Api.metrics va vb)).
Proof.
  unfold Api.metrics, mean_abs_diff, is_max_of, abs_diffs.
  assert ((if (List.length va <? List.length vb)%nat
           then List.length va else List.length vb)
          = Nat.min (List.length va) (List.length vb)) as ->.
  { destruct (List.length va <? List.length vb)%nat eqn:E;
      [apply Nat.ltb_lt in E | apply Nat.ltb_ge in E]; lia. }
  set (n := Nat.min (List.length va) (List.length vb)).
  rewrite (diff_loop_folds n va vb) by (unfold n; lia).
  set (ds := map (fun p => abs (fst p - snd p)%float)
                 (combine (firstn n va) (firstn n vb))).
  assert (List.length ds = n) as Hlen.
  { unfold ds. rewrite length_map, length_combine, !length_firstn.
    unfold n. lia. }
  cbn [fst snd]. split.
  - destruct ds as [|d ds']; simpl in Hlen.
    + now rewrite <- Hlen.
    + rewrite <- Hlen. reflexivity.
  - destruct (running_max ds 0%float [] (fun d (H : In d []) => match H with end))
      as [Hin Hmax].
    split; [exact Hin | exact Hmax].
Qed.

End Metrics.

(** C7.  The comparing step decodes both replies (at most 1024 values
    each), cuts both vectors to the shorter length and works on that
    common prefix: the first metric is the sum of the absolute
    differences, added in order, divided by their number; the second is
    the largest of them.  With an empty overlap both are exactly zero.
    For [[1,2,3]] and [[1,2,5]] they are (0+0+2)/3 and 2.  These are the
    two metrics a case reports. *)
Theorem C7_divergence_metrics :
  (forall va vb,
     fst (Api.metrics va vb) = mean_abs_diff va vb
     /\ is_max_of (abs_diffs va vb) (snd (Api.metrics va vb))
     /\ List.length (abs_diffs va vb) = Nat.min (List.length va) (List.length vb)
     /\ (va = [] \/ vb = [] -> Api.metrics va vb = (0, 0)%float))
  /\ (forall outA outB,
        Api.compare_outputs outA outB
        = Api.metrics (parse_vector_tolerant outA 1024)
                      (parse_vector_tolerant outB 1024))
  /\ Api.metrics [1; 2; 3]%float [1; 2; 5]%float = ((0 + 0 + 2) / 3, 2)%float
  /\ Api.compare_outputs (Some "[1,2,3]") (Some "[1,2,5]")
     = ((0 + 0 + 2) / 3, 2)%float
  /\ (forall (W : World) api id dims ndims st evs r st',
        Api.run_one W api id dims ndims st = (evs, Api.Done (Api.Reported r) st') ->
        (Api.r_mae r, Api.r_max r)
        = Api.compare_outputs (Api.r_outA r) (Api.r_outB r)).
Proof.
  split; [|split; [reflexivity|split; [vm_compute; reflexivity
                                |split; [vm_compute; reflexivity|]]]].
  - intros va vb. destruct (metrics_spec va vb) as [Hmean Hmax].
    split; [exact Hmean|]. split; [exact Hmax|]. split.
    + unfold abs_diffs. rewrite length_map, length_combine, !length_firstn. lia.
    + intros [-> | ->]; [now destruct vb|].
      unfold Api.metrics. cbn [List.length].
      assert ((List.length va <? 0)%nat = false) as -> by now apply Nat.ltb_ge; lia.
      reflexivity.
  - intros W api id dims ndims st evs r st' Hrun.
    destruct (reported_case W api id dims ndims st evs r st' Hrun)
      as (st1 & _ & _ & _ & H). exact H.
Qed.

Lemma C7_divergence_metrics_witness :
  Api.metrics [] [1]%float = (0, 0)%float.
Proof.
  exact (proj2 (proj2 (proj2 (proj1 C7_divergence_metrics [] [1]%float)))
           (or_introl eq_refl)).
Defined.

(** ** The deterministic input vector *)

Section Generator.

Lemma for_loop_S {S : Type} lo n (body : nat -> S -> S) init :
  for_loop lo (Datatypes.S n) body init = body (lo + n)%nat (for_loop lo n body init).
Proof. unfold for_loop. now rewrite seq_S, fold_left_app. Qed.

Lemma lcg_state_S k : lcg_state (S k) = lcg_step (lcg_state k).
Proof. reflexivity. Qed.

(** After [n] turns of the loop: the generator state and the values
    produced so far. *)
Lemma fixed784_turns n :
  let st := for_loop 0 n fixed784_body (123, [], Gen.append "" "[[") in
  fst (fst st) = lcg_state n
  /\ snd (fst st) = map (fun k => normalize (lcg_state (S k))) (seq 0 n).
Proof.
  induction n as [|n IH]; [split; reflexivity|].
  cbv zeta in *. rewrite for_loop_S.
  destruct (for_loop 0 n fixed784_body (123, [], Gen.append "" "[["))
    as [[s vs] b].
  cbn [fst snd] in IH. destruct IH as [-> ->].
  unfold fixed784_body. cbn [fst snd]. split; [reflexivity|].
  now rewrite seq_S, map_app.
Qed.

Lemma fixed784_values_eq :
  fixed784_values = map (fun k => normalize (lcg_state (S k))) (seq 0 784).
Proof. exact (proj2 (fixed784_turns 784)). Qed.

End Generator.

(** C1.  The input vector has 784 elements.  Element [i] is the state
    of the recurrence [s' = (s*1664525 + 1013904223) mod 2^32] after
    [i+1] steps from the seed 123, as a [double], divided by
    4294967295.0; element 0 is
    [((123*1664525+1013904223) mod 2^32) / 4294967295.0].  The generator
    takes no input: the vector and its text are constants, and the text
    holds each element written with six decimals. *)
Theorem C1_fixed784_is_lcg (i : nat) (H : (i < 784)%nat) :
  nth i fixed784_values 0%float
  = (Z2double (lcg_state (S i)) / 4294967295)%float
  /\ lcg_state (S i) = (lcg_state i * 1664525 + 1013904223) mod 2 ^ 32
  /\ lcg_state 0 = 123
  /\ List.length fixed784_values = 784%nat
  /\ nth 0 fixed784_values 0%float
     = (Z2double ((123 * 1664525 + 1013904223) mod 2 ^ 32) / 4294967295)%float
  /\ json_fixed784
     = "[[" ++ String.concat "," (map fmt_f6 fixed784_values) ++ "]]".
Proof.
  split; [|split; [reflexivity|split; [reflexivity|split; [|split]]]].
  - rewrite fixed784_values_eq.
    rewrite (nth_indep _ 0%float ((fun k => normalize (lcg_state (S k))) O))
      by (rewrite length_map, length_seq; exact H).
    rewrite (map_nth (fun k => normalize (lcg_state (S k)))).
    rewrite seq_nth by exact H. reflexivity.
  - rewrite fixed784_values_eq. now rewrite length_map, length_seq.
  - vm_compute. reflexivity.
  - exact (proj1 fixed784_text).
Qed.

Lemma C1_fixed784_is_lcg_witness :
  nth 0 fixed784_values 0%float = (Z2double (lcg_state 1) / 4294967295)%float
  /\ lcg_state 1 = (lcg_state 0 * 1664525 + 1013904223) mod 2 ^ 32
  /\ lcg_state 0 = 123
  /\ List.length fixed784_values = 784%nat
  /\ nth 0 fixed784_values 0%float
     = (Z2double ((123 * 1664525 + 1013904223) mod 2 ^ 32) / 4294967295)%float
  /\ json_fixed784
     = "[[" ++ String.concat "," (map fmt_f6 fixed784_values) ++ "]]".
Proof.
  apply (C1_fixed784_is_lcg 0). lia.
Defined.


(** * Further properties of the code *)

(** ** The capability resolver *)

Section Resolver.

Variable W : World.

Lemma resolve_any_unloaded names : Api.resolve_any W None names = None.
Proof. induction names as [|n names IH]; [reflexivity | exact IH]. Qed.

Lemma resolve_any_first h names p :
  Api.resolve_any W (Some h) names = Some p <-> first_export W h names p.
Proof.
  unfold first_export. induction names as [|n names IH]; simpl.
  - split; [discriminate|]. intros (pre & name & post & E & _).
    destruct pre; discriminate.
  - destruct (dlsym W h n) as [q|] eqn:Hn.
    + split.
      * intros [= ->]. exists [], n, names. repeat split; auto.
        intros x [].
      * intros (pre & name & post & E & Hname & Hpre).
        destruct pre as [|x pre]; simpl in E; injection E as E1 E2.
        -- subst name. congruence.
        -- subst x. rewrite (Hpre n (or_introl eq_refl)) in Hn. discriminate.
    + rewrite IH. split.
      * intros (pre & name & post & -> & Hname & Hpre).
        exists (n :: pre), name, post. repeat split; auto.
        intros x [<-|Hx]; auto.
      * intros (pre & name & post & E & Hname & Hpre).
        destruct pre as [|x pre]; simpl in E; injection E as E1 E2.
        -- subst name. congruence.
        -- exists pre, name, post. repeat split; auto.
           intros y Hy. apply Hpre. now right.
Qed.

Lemma resolve_any_none h names :
  Api.resolve_any W (Some h) names = None
  <-> forall n, In n names -> dlsym W h n = None.
Proof.
  induction names as [|n names IH]; simpl.
  - split; [intros _ x [] | reflexivity].
  - destruct (dlsym W h n) as [q|] eqn:Hn.
    + split; [discriminate|]. intros H.
      rewrite (H n (or_introl eq_refl)) in Hn. discriminate.
    + rewrite IH. split.
      * intros H x [<-|Hx]; auto.
      * intros H x Hx. apply H. now right.
Qed.

End Resolver.

(** X1.  When the library loads, [paragon_load] returns 1, keeps the
    library handle, and binds each of the three capabilities to the
    address of the first of its three names that the library exports,
    in the order of the list; a capability none of whose names is
    exported stays absent. *)
Theorem X1_resolver_first_alias (W : World) (so_path : option string) (h : so_handle) :
  dlopen W (Api.effective_path so_path) = Some h ->
  let api := snd (Api.paragon_load W so_path) in
  fst (Api.paragon_load W so_path) = 1
  /\ so api = Some h
  /\ (forall p, New5 api = Some p <-> first_export W h (Api.NEW5) p)
  /\ (forall p, New3 api = Some p <-> first_export W h (Api.NEW3) p)
  /\ (forall p, Call api = Some p <-> first_export W h (Api.CALLN) p)
  /\ (New5 api = None <-> forall n, In n Api.NEW5 -> dlsym W h n = None)
  /\ (New3 api = None <-> forall n, In n Api.NEW3 -> dlsym W h n = None)
  /\ (Call api = None <-> forall n, In n Api.CALLN -> dlsym W h n = None).
Proof.
  intros Hopen. unfold Api.paragon_load. rewrite Hopen. cbn [fst snd New5 New3 Call so].
  split; [reflexivity|]. split; [reflexivity|].
  split; [intros p; apply resolve_any_first|].
  split; [intros p; apply resolve_any_first|].
  split; [intros p; apply resolve_any_first|].
  split; [apply resolve_any_none|].
  split; apply resolve_any_none.
Qed.

(** The library that exports only [NewNetworkFloat32_JSON], the last of
    the three names of the 3-argument constructor. *)
Lemma X1_resolver_first_alias_witness :
  snd (Api.paragon_load ctor_only (Some "libparagon.so"))
  = {| so := Some 1%N; New5 := None; New3 := Some 3%N; Call := None |}
  /\ first_export ctor_only 1%N Api.NEW3 3%N.
Proof.
  split; [reflexivity|].
  exact (proj1 (proj1 (proj2 (proj2 (proj2
           (X1_resolver_first_alias ctor_only (Some "libparagon.so") 1%N eq_refl))))
           3%N) eq_refl).
Defined.

(** X2.  A library that loads but exports none of the nine names
    leaves the table empty: [main] then calls nothing, gives up each of
    its ten cases at construction and returns 0, as when the library
    does not load. *)
Theorem X2_no_symbols (W : World) (so_path : option string) (h : so_handle) :
  dlopen W (Api.effective_path so_path) = Some h ->
  (forall n, In n (Api.NEW5 ++ Api.NEW3 ++ Api.CALLN)%list -> dlsym W h n = None) ->
  let api := snd (Api.paragon_load W so_path) in
  (New5 api = None /\ New3 api = None /\ Call api = None)
  /\ forall argv st,
       Api.so_of_argv argv = so_path ->
       Api.main W argv st
       = ([], Api.Done (0, repeat (Api.ConstructionFailed None) 10) st).
Proof.
  intros Hopen Hnone.
  assert (Api.resolve_any W (Some h) Api.NEW5 = None) as H5
    by (apply resolve_any_none; intros n Hn; apply Hnone, in_or_app; now left).
  assert (Api.resolve_any W (Some h) Api.NEW3 = None) as H3
    by (apply resolve_any_none; intros n Hn; apply Hnone, in_or_app; right;
        apply in_or_app; now left).
  assert (Api.resolve_any W (Some h) Api.CALLN = None) as Hc
    by (apply resolve_any_none; intros n Hn; apply Hnone, in_or_app; right;
        apply in_or_app; now right).
  unfold Api.paragon_load. rewrite Hopen, H5, H3, Hc. cbn [snd New5 New3 Call].
  split; [auto|].
  intros argv st E. unfold Api.main. rewrite E.
  unfold Api.paragon_load. rewrite Hopen, H5, H3, Hc.
  unfold Api.bind.
  change {| so := Some h; New5 := None; New3 := None; Call := None |}
    with {| so := Some h; New5 := New5 Api.api_zero; New3 := New3 Api.api_zero;
            Call := Call Api.api_zero |}.
  generalize (Some h). intros o.
  assert (forall cases st0,
             Api.run_cases W {| so := o; New5 := None; New3 := None; Call := None |}
               cases st0
             = ([], Api.Done (map (fun _ => Api.ConstructionFailed None) cases) st0))
    as Hrun.
  { induction cases as [|[id dims] cases IH]; intros st0; [reflexivity|].
    cbn [Api.run_cases map]. unfold Api.bind at 1.
    rewrite (run_one_rejects W _ id dims (List.length dims) st0 [] None st0);
      [|reflexivity|vm_compute; discriminate].
    unfold Api.bind at 1. rewrite IH. reflexivity. }
  cbn [New5 New3 Call Api.api_zero]. rewrite Hrun. reflexivity.
Qed.

Lemma X2_no_symbols_witness :
  Api.main nosyms ["bench"; "libparagon.so"]
           {| Api.lib := (tt : lib_state nosyms); Api.ticks := O |}
  = ([], Api.Done (0, repeat (Api.ConstructionFailed None) 10)
                  {| Api.lib := (tt : lib_state nosyms); Api.ticks := O |}).
Proof.
  refine (proj2 (X2_no_symbols nosyms (Some "libparagon.so") 1%N eq_refl _)
            ["bench"; "libparagon.so"] _ eq_refl).
  intros n _. reflexivity.
Defined.

(** ** One case, step by step *)

Section Cases.

Variable W : World.

Ltac library_step :=
  match goal with
  | |- context [exec_call ?w ?f ?h ?m ?a ?l] =>
      destruct (exec_call w f h m a l) as [? ?]
  end; cbv beta iota.

Ltac run_program :=
  cbv beta iota zeta delta
    [Api.bind Api.now_ms Api.paragon_call0 Api.try_gpu_enable
     Api.call_unchecked Api.invoke_call Api.ret Api.lib Api.ticks].

(** Construction does not read the clock. *)
Lemma new_net_any_ticks api l a t g e st evs r st' :
  Api.paragon_new_net_any W api l a t g e st = (evs, Api.Done r st') ->
  Api.ticks st' = Api.ticks st.
Proof.
  unfold Api.paragon_new_net_any.
  destruct (New5 api) as [f|].
  { unfold Api.invoke5. destruct (exec_new5 W f l a t g e (Api.lib st)).
    now intros [= _ _ <-]. }
  destruct (New3 api) as [f|].
  { unfold Api.invoke3. destruct (exec_new3 W f l a t (Api.lib st)).
    now intros [= _ _ <-]. }
  destruct (Call api) as [f|].
  { unfold Api.invoke_call. library_step. now intros [= _ _ <-]. }
  unfold Api.ret. now intros [= _ _ <-].
Qed.

Lemma try_gpu_enable_runs api h st :
  exists st',
    Api.try_gpu_enable W api h st
    = (match Call api with Some f => gpu_calls f h | None => [] end,
       Api.Done tt st')
    /\ Api.ticks st' = Api.ticks st
    /\ (Call api = None -> st' = st).
Proof.
  destruct (Call api) as [f|] eqn:Hc.
  - run_program. rewrite Hc. cbv beta iota. repeat library_step.
    eexists. split; [reflexivity|]. split; [reflexivity | discriminate].
  - exists st. unfold Api.try_gpu_enable. rewrite Hc. auto.
Qed.

(** A reported case read the clock six times. *)
Lemma run_one_reports_ticks api id dims ndims st evs newr st' f :
  Api.paragon_new_net_any W api (json_layers dims ndims) (json_activs ndims)
      (json_trainable ndims) false false st = (evs, Api.Done newr st') ->
  0 < paragon_parse_handle newr ->
  Call api = Some f ->
  exists r st'',
    Api.run_one W api id dims ndims st
    = ((evs ++ case_calls f (paragon_parse_handle newr))%list,
       Api.Done (Api.Reported r) st'')
    /\ Api.ticks st'' = (6 + Api.ticks st')%nat
    /\ Api.r_init_ms r
       = (Api.ms_of (clock_gettime W (1 + Api.ticks st'))
          - Api.ms_of (clock_gettime W (Api.ticks st')))%float
    /\ Api.r_est_mb r = Api.est_mb dims ndims.
Proof.
  intros Hnew Hh Hcall. unfold Api.run_one.
  unfold Api.bind at 1. rewrite Hnew.
  apply Z.leb_gt in Hh. rewrite Hh.
  run_program. rewrite Hcall. cbv beta iota.
  repeat library_step.
  match goal with
  | |- context [Api.compare_outputs ?a ?b] =>
      destruct (Api.compare_outputs a b) as [mae mx]
  end.
  cbv beta iota.
  eexists. eexists. split; [reflexivity|].
  split; [reflexivity|]. split; reflexivity.
Qed.


Lemma run_cases_faults api id dims rest st evs :
  Api.run_one W api id dims (List.length dims) st = (evs, Api.Fault) ->
  Api.run_cases W api ((id, dims) :: rest) st = (evs, Api.Fault).
Proof.
  intros H. cbn [Api.run_cases]. unfold Api.bind at 1. now rewrite H.
Qed.

End Cases.

(** X3.  A case whose construction yields a usable handle while the
    dispatcher is absent (a library with a constructor but no [Call])
    goes through the null [api->Call] at its first [Forward]: after the
    calls of construction the case does not return.  When this happens
    in the first case of the suite, [main] does not return either, and
    no later case is run. *)
Theorem X3_forward_through_null (W : World) :
  (forall api id dims ndims st evs newr st',
     Api.paragon_new_net_any W api (json_layers dims ndims) (json_activs ndims)
         (json_trainable ndims) false false st = (evs, Api.Done newr st') ->
     0 < paragon_parse_handle newr ->
     Call api = None ->
     Api.run_one W api id dims ndims st = (evs, Api.Fault))
  /\ (forall argv st evs newr st',
        let api := snd (Api.paragon_load W (Api.so_of_argv argv)) in
        Api.paragon_new_net_any W api (json_layers [784; 64; 10] 3) (json_activs 3)
            (json_trainable 3) false false st = (evs, Api.Done newr st') ->
        0 < paragon_parse_handle newr ->
        Call api = None ->
        Api.main W argv st = (evs, Api.Fault)).
Proof.
  split.
  - intros. eapply run_one_faults; eauto.
  - intros argv st evs newr st' api Hnew Hh Hc.
    unfold Api.main. subst api.
    destruct (Api.paragon_load W (Api.so_of_argv argv)) as [status api].
    cbn [snd] in *. unfold Api.bind.
    unfold Api.suite.
    rewrite (run_cases_faults W api "S1" [784; 64; 10] _ st evs); [reflexivity|].
    eapply run_one_faults; eauto.
Qed.

(** The library with the 3-argument constructor only, answering 7. *)
Lemma X3_forward_through_null_witness :
  Api.main ctor_only ["bench"; "libparagon.so"]
           {| Api.lib := (tt : lib_state ctor_only); Api.ticks := O |}
  = ([EvNew3 3%N (json_layers [784; 64; 10] 3) (json_activs 3) (json_trainable 3)],
     Api.Fault).
Proof.
  exact (proj2 (X3_forward_through_null ctor_only)
           ["bench"; "libparagon.so"]
           {| Api.lib := (tt : lib_state ctor_only); Api.ticks := O |}
           [EvNew3 3%N (json_layers [784; 64; 10] 3) (json_activs 3) (json_trainable 3)]
           (Some "7")
           {| Api.lib := (tt : lib_state ctor_only); Api.ticks := O |}
           eq_refl eq_refl eq_refl).
Defined.


(** X5.  [try_gpu_enable] always returns.  Without the dispatcher it
    does nothing; with it, it makes its six enabling calls in order,
    whatever the library answers to each.  It does not read the
    clock. *)
Theorem X5_gpu_enable_returns (W : World) api h st :
  exists st',
    Api.try_gpu_enable W api h st
    = (match Call api with Some f => gpu_calls f h | None => [] end,
       Api.Done tt st')
    /\ Api.ticks st' = Api.ticks st
    /\ (Call api = None -> st' = st).
Proof. apply try_gpu_enable_runs. Qed.

(** ** Decimal text in a larger text *)

Section NumbersInText.

Lemma uint_digits d : all_chars isdigit (NilEmpty.string_of_uint d) = true.
Proof.
  induction d as [|d IH|d IH|d IH|d IH|d IH|d IH|d IH|d IH|d IH|d IH];
    cbn [NilEmpty.string_of_uint all_chars]; [reflexivity|..];
    rewrite IH; reflexivity.
Qed.

Lemma all_chars_has_not P s c :
  all_chars P s = true -> P c = false -> has_char c s = false.
Proof.
  intros Hs Hc. induction s as [|a s IH]; simpl in *; [reflexivity|].
  apply andb_true_iff in Hs. destruct Hs as [Ha Hs].
  rewrite (IH Hs), orb_false_r.
  destruct (Ascii.eqb_spec a c) as [->|_]; [congruence | reflexivity].
Qed.

Lemma fmt_d_chars n :
  all_chars (fun c => isdigit c || Ascii.eqb c "-") (fmt_d n) = true.
Proof.
  assert (forall d, all_chars (fun c => isdigit c || Ascii.eqb c "-")
                      (NilEmpty.string_of_uint d) = true) as H.
  { intros d. pose proof (uint_digits d) as Hd.
    induction (NilEmpty.string_of_uint d) as [|a s IH]; simpl in *; [reflexivity|].
    apply andb_true_iff in Hd. destruct Hd as [-> Hd]. simpl. now apply IH. }
  unfold fmt_d. destruct (n <? 0); rewrite fmt_uint_digits; [simpl|]; apply H.
Qed.

Lemma fmt_d_no_char n c :
  isdigit c = false -> Ascii.eqb c "-" = false -> has_char c (fmt_d n) = false.
Proof.
  intros H1 H2. eapply all_chars_has_not; [apply fmt_d_chars|].
  cbv beta. now rewrite H1, H2.
Qed.

Lemma take_digits_tail d tail : forall acc cnt,
  no_digit_ahead tail ->
  take_digits false acc cnt (NilEmpty.string_of_uint d ++ tail)
  = (uint_val d acc, (cnt + Decimal.nb_digits d)%nat, tail).
Proof.
  induction d as [|d IH|d IH|d IH|d IH|d IH|d IH|d IH|d IH|d IH|d IH];
    intros acc cnt Ht;
    cbn [NilEmpty.string_of_uint String.append take_digits uint_val
         Decimal.nb_digits].
  1: { rewrite Nat.add_0_r. destruct tail as [|c t]; [reflexivity|].
       simpl in Ht. cbn [take_digits]. now rewrite Ht. }
  all: match goal with
       | |- context [isdigit ?c] => change (isdigit c) with true; cbv iota
       end.
  all: rewrite IH by exact Ht; rewrite Nat.add_succ_comm; reflexivity.
Qed.

Lemma nb_digits_pos d : d <> Decimal.Nil -> Decimal.nb_digits d <> O.
Proof. destruct d; [congruence|..]; discriminate. Qed.

(** The digits of [n] without its sign. *)
Lemma fmt_d_split n :
  exists d, d <> Decimal.Nil /\ uint_val d 0 = Z.abs n
            /\ fmt_d n = (if n <? 0 then "-" else "") ++ NilEmpty.string_of_uint d.
Proof.
  unfold fmt_d. destruct (n <? 0) eqn:E.
  - apply Z.ltb_lt in E. exists (N.to_uint (Z.to_N (- n))).
    split; [apply to_uint_nonnil|]. split.
    + rewrite uint_val_to_uint by lia. lia.
    + now rewrite fmt_uint_digits.
  - apply Z.ltb_ge in E. exists (N.to_uint (Z.to_N n)).
    split; [apply to_uint_nonnil|]. split.
    + rewrite uint_val_to_uint by lia. lia.
    + now rewrite fmt_uint_digits.
Qed.

Lemma clamp_in_range n : LLONG_MIN <= n <= LLONG_MAX -> clamp_ll n = n.
Proof.
  intros H. unfold clamp_ll.
  destruct (n <? LLONG_MIN) eqn:E1; [apply Z.ltb_lt in E1; lia|].
  destruct (LLONG_MAX <? n) eqn:E2; [apply Z.ltb_lt in E2; lia|]. reflexivity.
Qed.

(** [strtoll] reads a number out of the front of a text. *)
Lemma strtoll_fmt_d_tail n tail :
  LLONG_MIN <= n <= LLONG_MAX -> no_digit_ahead tail ->
  strtoll (fmt_d n ++ tail) = (n, tail).
Proof.
  intros Hn Ht. destruct (fmt_d_split n) as (d & Hd & Hv & ->).
  unfold strtoll. destruct (n <? 0) eqn:E.
  - apply Z.ltb_lt in E.
    change (take_sign (skip_space (("-" ++ NilEmpty.string_of_uint d) ++ tail)))
      with (true, NilEmpty.string_of_uint d ++ tail).
    cbv beta iota. rewrite take_digits_tail by exact Ht.
    destruct (Decimal.nb_digits d) eqn:Nd; [now apply nb_digits_pos in Nd|].
    cbn [Nat.add]. rewrite Hv. f_equal. rewrite clamp_in_range; lia.
  - apply Z.ltb_ge in E.
    assert (take_sign (skip_space (("" ++ NilEmpty.string_of_uint d) ++ tail))
            = (false, NilEmpty.string_of_uint d ++ tail)) as ->
      by (destruct d; [now elim Hd|..]; reflexivity).
    rewrite take_digits_tail by exact Ht.
    destruct (Decimal.nb_digits d) eqn:Nd; [now apply nb_digits_pos in Nd|].
    cbn [Nat.add]. rewrite Hv. f_equal. rewrite clamp_in_range; lia.
Qed.

Lemma stops_no_digit tail : stops tail -> no_digit_ahead tail.
Proof.
  destruct tail as [|c t]; simpl; [trivial|]. unfold stop_char.
  intros H. apply orb_true_iff in H.
  destruct H as [H|H]; apply Ascii.eqb_eq in H; subst c; reflexivity.
Qed.

(** The value [strtod] gives to the digits of an integer. *)
Lemma dec2double_int n : dec2double (n <? 0) (Z.abs n) 0 = Z2double n.
Proof.
  unfold dec2double, Z2double. destruct n as [|p|p]; cbn [Z.abs Z.ltb Z.compare].
  - reflexivity.
  - cbn [Z.leb Z.compare signed]. now rewrite Z.pow_0_r, Z.mul_1_r.
  - cbn [Z.leb Z.compare signed]. now rewrite Z.pow_0_r, Z.mul_1_r.
Qed.

(** [strtod] reads an integer out of the front of a list text. *)
Lemma strtod_fmt_d_tail n tail :
  stops tail -> strtod (fmt_d n ++ tail) = (Z2double n, tail).
Proof.
  intros Ht. pose proof (stops_no_digit tail Ht) as Hnd.
  destruct (fmt_d_split n) as (d & Hd & Hv & ->).
  unfold strtod.
  assert (take_sign (skip_space (((if n <? 0 then "-" else "")
                                   ++ NilEmpty.string_of_uint d) ++ tail))
          = (n <? 0, NilEmpty.string_of_uint d ++ tail)) as ->
    by (destruct (n <? 0); (destruct d; [now elim Hd|..]; reflexivity)).
  assert (strip_ci "inf" (NilEmpty.string_of_uint d ++ tail) = None) as ->
    by (destruct d; [now elim Hd|..]; reflexivity).
  assert (strip_ci "nan" (NilEmpty.string_of_uint d ++ tail) = None) as ->
    by (destruct d; [now elim Hd|..]; reflexivity).
  assert (strip_ci "0x" (NilEmpty.string_of_uint d ++ tail) = None) as ->.
  { destruct d as [|l|l|l|l|l|l|l|l|l|l]; [now elim Hd|..]; try reflexivity.
    destruct l; try reflexivity.
    destruct tail as [|c t]; [reflexivity|].
    simpl in Ht. unfold stop_char in Ht. apply orb_true_iff in Ht.
    destruct Ht as [H|H]; apply Ascii.eqb_eq in H; subst c; reflexivity. }
  unfold parse_mantissa. rewrite take_digits_tail by exact Hnd.
  assert (match tail with
          | String c r =>
              if Ascii.eqb c "."
              then take_digits false (uint_val d 0) 0 r
              else (uint_val d 0, O, tail)
          | EmptyString => (uint_val d 0, O, tail)
          end = (uint_val d 0, O, tail)) as ->.
  { destruct tail as [|c t]; [reflexivity|].
    simpl in Ht. unfold stop_char in Ht. apply orb_true_iff in Ht.
    destruct Ht as [H|H]; apply Ascii.eqb_eq in H; subst c; reflexivity. }
  destruct (Decimal.nb_digits d) eqn:Nd; [now apply nb_digits_pos in Nd|].
  cbn [Nat.add].
  assert (take_exponent "e" tail = (0, tail)) as ->.
  { destruct tail as [|c t]; [reflexivity|].
    simpl in Ht. unfold stop_char in Ht. apply orb_true_iff in Ht.
    destruct Ht as [H|H]; apply Ascii.eqb_eq in H; subst c; reflexivity. }
  rewrite Hv. cbn [Z.of_nat Z.sub Z.opp Z.add]. now rewrite dec2double_int.
Qed.

(** A needle does not occur where its first character does not. *)
Lemma strstr_no_first x : forall tail c0 k,
  has_char c0 x = false ->
  strstr (x ++ tail) (String c0 k) = strstr tail (String c0 k).
Proof.
  induction x as [|a x IH]; intros tail c0 k H; [reflexivity|].
  simpl in H. apply orb_false_iff in H. destruct H as [Ha H].
  rewrite strstr_unfold. cbn [String.append starts_with].
  rewrite Ascii.eqb_sym, Ha. cbn [andb]. now apply IH.
Qed.

Lemma strstr_absent_char hay c0 k :
  has_char c0 hay = false -> strstr hay (String c0 k) = None.
Proof.
  intros H. rewrite <- (app_nil_r hay). rewrite strstr_no_first by exact H.
  reflexivity.
Qed.

End NumbersInText.

(** ** Decoding what was encoded *)

Section RoundTrips.

Lemma fmt_d_nonempty n : (1 <= strlen (fmt_d n))%nat.
Proof.
  destruct (fmt_d_split n) as (d & Hd & _ & ->).
  rewrite strlen_app. destruct d; [now elim Hd|..]; unfold strlen; simpl; lia.
Qed.

Lemma comma_is_no_number x : snd (strtod (String "," x)) = String "," x.
Proof. reflexivity. Qed.

(** The scan of a list of integers collects them, as far as there is
    room. *)
Lemma collects_ints c : forall ns room,
  collects (String "]" c) (String.concat "," (map fmt_d ns) ++ String "]" c) room
           (firstn room (map Z2double ns)).
Proof.
  assert (forall n x, ptr_lt (fmt_d n ++ x ++ String "]" c) (String "]" c) = true)
    as Hlt.
  { intros n x. unfold ptr_lt. apply Nat.ltb_lt.
    rewrite !strlen_app. pose proof (fmt_d_nonempty n). lia. }
  induction ns as [|n ns IH]; intros room.
  - rewrite firstn_nil. apply collects_stop. left.
    unfold ptr_lt. apply Nat.ltb_irrefl.
  - destruct room as [|room]; [apply collects_stop; now right|].
    cbn [map firstn]. destruct ns as [|m ns].
    + cbn [map String.concat].
      apply collects_take with (e := String "]" c).
      * exact (Hlt n "").
      * now apply strtod_fmt_d_tail.
      * intros E. apply (f_equal strlen) in E. rewrite strlen_app in E.
        pose proof (fmt_d_nonempty n). lia.
      * rewrite firstn_nil. apply collects_stop. left.
        unfold ptr_lt. apply Nat.ltb_irrefl.
    + assert (String.concat "," (fmt_d n :: map fmt_d (m :: ns))
              = fmt_d n ++ String "," (String.concat "," (map fmt_d (m :: ns))))
        as -> by reflexivity.
      rewrite app_assoc.
      change (String "," (String.concat "," (map fmt_d (m :: ns))) ++ String "]" c)
        with (String "," (String.concat "," (map fmt_d (m :: ns)) ++ String "]" c)).
      apply collects_take
        with (e := String "," (String.concat "," (map fmt_d (m :: ns)) ++ String "]" c)).
      * unfold ptr_lt. apply Nat.ltb_lt. rewrite strlen_app.
        pose proof (fmt_d_nonempty n).
        change (strlen (String "," (String.concat "," (map fmt_d (m :: ns))
                                    ++ String "]" c)))
          with (S (strlen (String.concat "," (map fmt_d (m :: ns)) ++ String "]" c))).
        rewrite strlen_app. lia.
      * now apply strtod_fmt_d_tail.
      * intros E. apply (f_equal strlen) in E. rewrite strlen_app in E.
        pose proof (fmt_d_nonempty n). lia.
      * destruct room as [|room]; [apply collects_stop; now right|].
        apply collects_skip.
        -- unfold ptr_lt. apply Nat.ltb_lt.
           change (strlen (String "," (String.concat "," (map fmt_d (m :: ns))
                                       ++ String "]" c)))
             with (S (strlen (String.concat "," (map fmt_d (m :: ns)) ++ String "]" c))).
           rewrite strlen_app. lia.
        -- apply comma_is_no_number.
        -- apply IH.
Qed.

Lemma strtoll_in_range s : LLONG_MIN <= fst (strtoll s) <= LLONG_MAX.
Proof.
  unfold strtoll.
  destruct (take_sign (skip_space s)) as [neg s1].
  destruct (take_digits false 0 0 s1) as [[m cnt] e].
  destruct cnt; cbn [fst]; [unfold LLONG_MIN, LLONG_MAX; lia|].
  unfold clamp_ll.
  destruct (_ <? LLONG_MIN) eqn:E1; [unfold LLONG_MIN, LLONG_MAX; lia|].
  destruct (LLONG_MAX <? _) eqn:E2; [unfold LLONG_MIN, LLONG_MAX; lia|].
  apply Z.ltb_ge in E1, E2. lia.
Qed.

Lemma try_key_in_range hay k n :
  try_key hay k = Some n -> LLONG_MIN <= n <= LLONG_MAX.
Proof.
  unfold try_key.
  destruct (strstr hay k) as [p|]; [|discriminate].
  destruct (strchr p ":") as [p1|]; [|discriminate].
  pose proof (strtoll_in_range (skip_sep p1)) as H.
  destruct (strtoll (skip_sep p1)) as [v e].
  destruct (ptr_eq e (skip_sep p1)); [discriminate|].
  now intros [= <-].
Qed.

Lemma key_loop_in_range hay n : forall ks,
  key_loop hay ks = Some n -> LLONG_MIN <= n <= LLONG_MAX.
Proof.
  induction ks as [|k ks IH]; simpl; [discriminate|].
  destruct (try_key hay k) as [m|] eqn:E; [|exact IH].
  intros [= <-]. eapply try_key_in_range; eauto.
Qed.

Lemma no_quote_no_key txt k :
  has_char dqc txt = false -> In k (quoted "result" :: keys) -> strstr txt k = None.
Proof.
  intros H Hk. unfold keys in Hk. simpl in Hk.
  destruct Hk as [<-|[<-|[<-|[<-|[<-|[<-|[<-|[<-|[<-|[]]]]]]]]]];
    apply (strstr_absent_char txt dqc); exact H.
Qed.

End RoundTrips.

(** X7.  For every reply, absent or not, and every bound, the vector
    decoder writes at most [maxn] cells (none when [maxn] is zero or
    negative); so the 1024-cell arrays of the comparing step are never
    overrun and keep their size. *)
Theorem X7_decoder_stays_in_bounds (txt : option string) (maxn : Z) :
  (List.length (parse_vector_tolerant txt maxn) <= Z.to_nat maxn)%nat
  /\ (maxn <= 0 -> parse_vector_tolerant txt maxn = [])
  /\ List.length (Api.array_of (parse_vector_tolerant txt 1024)) = 1024%nat.
Proof.
  assert (forall m, List.length (parse_vector_tolerant txt m) <= Z.to_nat m)%nat as H.
  { intros m. destruct txt as [txt|]; [|simpl; lia].
    destruct (bracket_cases txt)
      as [H|[(a & b & -> & Ha & Hb)|(a & b & c & -> & Ha & Hc)]].
    - rewrite no_open_bracket by exact H. simpl. lia.
    - rewrite brackets_out_of_order by assumption. simpl. lia.
    - destruct (between_brackets a b c m Ha Hc) as (vs & -> & _ & L). exact L. }
  split; [apply H|]. split.
  - intros Hm. specialize (H maxn).
    replace (Z.to_nat maxn) with O in H by lia.
    destruct (parse_vector_tolerant txt maxn); [reflexivity | simpl in H; lia].
  - unfold Api.array_of. rewrite length_app, repeat_length.
    specialize (H 1024). change (Z.to_nat 1024) with 1024%nat in H. lia.
Qed.

(** X8.  Decoding undoes encoding for lists of integers: a JSON list
    of integers, alone or inside a text that has no opening bracket
    before it and no closing bracket after it, decodes to those
    integers as doubles, in order, cut to the first [maxn]. *)
Theorem X8_integer_list_round_trip (a c : string) (ns : list Z) (maxn : Z) :
  has_char "[" a = false -> has_char "]" c = false ->
  parse_vector_tolerant (Some (a ++ json_ints ns ++ c)) maxn
  = firstn (Z.to_nat maxn) (map Z2double ns).
Proof.
  intros Ha Hc.
  assert (a ++ json_ints ns ++ c
          = a ++ String "[" (String.concat "," (map fmt_d ns) ++ String "]" c)) as ->.
  { unfold json_ints. f_equal.
    change ("[" ++ String.concat "," (map fmt_d ns) ++ "]")
      with (String "[" (String.concat "," (map fmt_d ns) ++ "]")).
    cbn [String.append]. f_equal. now rewrite app_assoc. }
  destruct (between_brackets a (String.concat "," (map fmt_d ns)) c maxn Ha Hc)
    as (vs & -> & C & _).
  eapply collects_functional; [exact C | apply collects_ints].
Qed.

Lemma X8_integer_list_round_trip_witness :
  parse_vector_tolerant (Some ("{out:" ++ json_ints [3; -20; 0; 784] ++ "}")) 3
  = firstn (Z.to_nat 3) (map Z2double [3; -20; 0; 784]).
Proof.
  exact (X8_integer_list_round_trip "{out:" "}" [3; -20; 0; 784] 3 eq_refl eq_refl).
Defined.

(** X10.  A bare integer is only recognized when the reply ends right
    after it.  A reply that is an integer followed by anything that is
    not a digit (a newline, a space, a unit) and that has no double
    quote decodes to -1, not to the integer. *)
Theorem X10_trailing_text_rejected (n : Z) (tail : string) :
  LLONG_MIN <= n <= LLONG_MAX ->
  tail <> "" -> no_digit_ahead tail -> has_char dqc tail = false ->
  paragon_parse_handle (Some (fmt_d n ++ tail)) = -1.
Proof.
  intros Hn Hne Hnd Hq. unfold paragon_parse_handle.
  rewrite strtoll_fmt_d_tail by assumption.
  destruct tail as [|c t]; [now elim Hne|].
  assert (has_char dqc (fmt_d n ++ String c t) = false) as Hno.
  { rewrite has_char_app, Hq, orb_false_r. now apply fmt_d_no_char. }
  cbn [pass_loop Nat.eqb].
  rewrite key_loop_absent.
  - rewrite (no_quote_no_key _ (quoted "result") Hno (or_introl eq_refl)).
    reflexivity.
  - intros k Hk Hc. destruct Hc as (pre & post & E).
    pose proof (no_quote_no_key _ k Hno (or_intror Hk)) as Hs.
    apply strstr_None in Hs. apply Hs. now exists pre, post.
Qed.

(** The reply [42] followed by a newline. *)
Lemma X10_trailing_text_rejected_witness :
  paragon_parse_handle (Some (fmt_d 42 ++ String (ascii_of_nat 10) "")) = -1.
Proof.
  refine (X10_trailing_text_rejected 42 (String (ascii_of_nat 10) "") _ _ _ _).
  - vm_compute. split; discriminate.
  - discriminate.
  - reflexivity.
  - reflexivity.
Defined.

(** ** Replies that name the handle under a key *)

Section KeyedReplies.

Lemma strstr_skip c hay k :
  starts_with k (String c hay) = false -> strstr (String c hay) k = strstr hay k.
Proof. intros H. rewrite strstr_unfold. now rewrite H. Qed.

Lemma strstr_here hay k : starts_with k hay = true -> strstr hay k = Some hay.
Proof. intros H. rewrite strstr_unfold. now rewrite H. Qed.

Lemma key_loop_next hay k ks :
  strstr hay k = None -> key_loop hay (k :: ks) = key_loop hay ks.
Proof. intros H. cbn [key_loop]. unfold try_key. now rewrite H. Qed.

(** The number after the key is found: [p] is where the key starts. *)
Lemma key_loop_found hay k ks p sep rest n :
  strstr hay k = Some p ->
  strchr p ":" = Some (String ":" (sep ++ rest)) ->
  all_chars is_sep sep = true ->
  match rest with String c _ => is_sep c = false | EmptyString => True end ->
  forall e, strtoll rest = (n, e) -> strlen e <> strlen rest ->
  key_loop hay (k :: ks) = Some n.
Proof.
  intros H1 H2 Hs Hr e Hn He. cbn [key_loop]. unfold try_key.
  rewrite H1, H2.
  change (String ":" (sep ++ rest)) with (String ":" sep ++ rest).
  rewrite skip_sep_app; [|simpl; now rewrite Hs|exact Hr].
  rewrite Hn. unfold ptr_eq. apply Nat.eqb_neq in He. now rewrite He.
Qed.

Lemma fmt_d_head n tail :
  match fmt_d n ++ tail with
  | String c _ => is_sep c = false
  | EmptyString => True
  end.
Proof.
  destruct (fmt_d_split n) as (d & Hd & _ & ->).
  destruct (n <? 0); [reflexivity|].
  destruct d; [now elim Hd|..]; reflexivity.
Qed.

Lemma fmt_d_shorter n tail : strlen tail <> strlen (fmt_d n ++ tail).
Proof. rewrite strlen_app. pose proof (fmt_d_nonempty n). lia. Qed.

Lemma fmt_d_no_quote n : has_char (ascii_of_nat 34) (fmt_d n) = false.
Proof. now apply fmt_d_no_char. Qed.

(** A key followed by a colon, separators and a number yields it. *)
Lemma keyed_hit hay k ks tail sep n :
  strstr hay k = Some (k ++ String ":" (sep ++ fmt_d n ++ tail)) ->
  has_char ":" k = false ->
  all_chars is_sep sep = true ->
  LLONG_MIN <= n <= LLONG_MAX ->
  no_digit_ahead tail ->
  key_loop hay (k :: ks) = Some n.
Proof.
  intros H1 Hk Hs Hn Ht.
  exact (key_loop_found hay k ks _ sep (fmt_d n ++ tail) n H1
           (strchr_first k ":" (sep ++ fmt_d n ++ tail) Hk) Hs
           (fmt_d_head n tail) tail (strtoll_fmt_d_tail n tail Hn Ht)
           (fmt_d_shorter n tail)).
Qed.

End KeyedReplies.

(** Walking [strstr] over a text made of fixed characters, separators
    and decimal numbers. *)
Ltac walk_text Hq :=
  repeat first
    [ rewrite strstr_skip by reflexivity
    | rewrite strstr_no_first by exact Hq
    | rewrite strstr_no_first by apply fmt_d_no_quote ].

Ltac pass_keys Hq :=
  repeat (rewrite key_loop_next by (walk_text Hq; reflexivity)).

(** X9.  Decoding undoes the usual ways of naming a handle.  For each
    of the eight recognized keys, a reply [{KEY:N}], with any run of
    colons, spaces and tabs between the colon and the number, bare or
    inside a [result] wrapper, decodes to [N], for every 64-bit [N]. *)
Theorem X9_keyed_reply_round_trip (wrapped : bool) (key sep : string) (n : Z) :
  In key keys ->
  LLONG_MIN <= n <= LLONG_MAX ->
  all_chars is_sep sep = true ->
  has_char dqc sep = false ->
  paragon_parse_handle (Some (keyed_reply wrapped key sep n)) = n.
Proof.
  intros Hk Hn Hs Hq.
  unfold keys in Hk. cbn [map In] in Hk.
  destruct Hk as [<-|[<-|[<-|[<-|[<-|[<-|[<-|[<-|[]]]]]]]]]; destruct wrapped;
    unfold paragon_parse_handle, keyed_reply;
    cbn [String.append quoted dq];
    match goal with
    | |- context [strtoll ?t] => assert (strtoll t = (0, t)) as -> by reflexivity
    end;
    cbv beta iota; cbn [pass_loop Nat.eqb]; unfold keys; cbn [map];
    cbn [String.append quoted dq];
    pass_keys Hq;
    (erewrite (keyed_hit _ _ _ _ sep n);
     [ reflexivity
     | walk_text Hq; apply strstr_here; reflexivity
     | reflexivity
     | exact Hs
     | exact Hn
     | reflexivity ]).
Qed.

(** A reply inside a [result] wrapper, with a space after the colon. *)
Lemma X9_keyed_reply_round_trip_witness :
  paragon_parse_handle (Some (keyed_reply true (quoted "id") " " 9)) = 9.
Proof.
  refine (X9_keyed_reply_round_trip true (quoted "id") " " 9 _ _ eq_refl eq_refl).
  - right. right. left. reflexivity.
  - vm_compute. split; discriminate.
Defined.

(** X13.  When a reply carries numbers under two recognized keys, the
    order of the keys in the text does not matter: the number returned
    is the one under the key that comes first in the fixed list
    [handle, Handle, id, ID, network_handle, NetworkHandle, h, H]. *)
Theorem X13_key_priority (i j : nat) (k1 k2 : string) (a b : Z) :
  nth_error keys i = Some k1 ->
  nth_error keys j = Some k2 ->
  i <> j ->
  LLONG_MIN <= a <= LLONG_MAX ->
  LLONG_MIN <= b <= LLONG_MAX ->
  paragon_parse_handle (Some (two_keys_reply k1 a k2 b))
  = if (j <? i)%nat then b else a.
Proof.
  intros H1 H2 Hij Ha Hb.
  unfold keys in H1, H2. cbn [map] in H1, H2.
  destruct i as [|[|[|[|[|[|[|[|i]]]]]]]]; cbn [nth_error] in H1;
    try (destruct i; discriminate); injection H1 as <-;
    (destruct j as [|[|[|[|[|[|[|[|j]]]]]]]]; cbn [nth_error] in H2;
     try (destruct j; discriminate); try (now elim Hij); injection H2 as <-;
     unfold paragon_parse_handle, two_keys_reply;
     cbn [String.append quoted dq];
     match goal with
     | |- context [strtoll ?t] => assert (strtoll t = (0, t)) as -> by reflexivity
     end;
     cbv beta iota; cbn [pass_loop Nat.eqb]; unfold keys; cbn [map];
     cbn [String.append quoted dq];
     pass_keys I;
     first
       [ erewrite (keyed_hit _ _ _ _ "" a);
         [ reflexivity
         | walk_text I; apply strstr_here; reflexivity
         | reflexivity | reflexivity | exact Ha | reflexivity ]
       | erewrite (keyed_hit _ _ _ _ "" b);
         [ reflexivity
         | walk_text I; apply strstr_here; reflexivity
         | reflexivity | reflexivity | exact Hb | reflexivity ] ]).
Qed.

(** [id] is written first, [handle] wins. *)
Lemma X13_key_priority_witness :
  paragon_parse_handle (Some (two_keys_reply (quoted "id") 1 (quoted "handle") 2)) = 2.
Proof.
  refine (X13_key_priority 2 0 (quoted "id") (quoted "handle") 1 2
            eq_refl eq_refl _ _ _).
  - discriminate.
  - vm_compute. split; discriminate.
  - vm_compute. split; discriminate.
Defined.

(** ** Numbers beyond the 64-bit range *)

Section Saturation.

(** [strtoll] on the decimal text of any integer, of whatever size. *)
Lemma strtoll_fmt_d_any n tail :
  no_digit_ahead tail -> strtoll (fmt_d n ++ tail) = (clamp_ll n, tail).
Proof.
  intros Ht. destruct (fmt_d_split n) as (d & Hd & Hv & ->).
  unfold strtoll. destruct (n <? 0) eqn:E.
  - apply Z.ltb_lt in E.
    change (take_sign (skip_space (("-" ++ NilEmpty.string_of_uint d) ++ tail)))
      with (true, NilEmpty.string_of_uint d ++ tail).
    cbv beta iota. rewrite take_digits_tail by exact Ht.
    destruct (Decimal.nb_digits d) eqn:Nd; [now apply nb_digits_pos in Nd|].
    cbn [Nat.add]. rewrite Hv. f_equal. f_equal. lia.
  - apply Z.ltb_ge in E.
    assert (take_sign (skip_space (("" ++ NilEmpty.string_of_uint d) ++ tail))
            = (false, NilEmpty.string_of_uint d ++ tail)) as ->
      by (destruct d; [now elim Hd|..]; reflexivity).
    rewrite take_digits_tail by exact Ht.
    destruct (Decimal.nb_digits d) eqn:Nd; [now apply nb_digits_pos in Nd|].
    cbn [Nat.add]. rewrite Hv. f_equal. f_equal. lia.
Qed.

Lemma keyed_hit_any hay k ks tail sep n :
  strstr hay k = Some (k ++ String ":" (sep ++ fmt_d n ++ tail)) ->
  has_char ":" k = false ->
  all_chars is_sep sep = true ->
  no_digit_ahead tail ->
  key_loop hay (k :: ks) = Some (clamp_ll n).
Proof.
  intros H1 Hk Hs Ht.
  exact (key_loop_found hay k ks _ sep (fmt_d n ++ tail) (clamp_ll n) H1
           (strchr_first k ":" (sep ++ fmt_d n ++ tail) Hk) Hs
           (fmt_d_head n tail) tail (strtoll_fmt_d_any n tail Ht)
           (fmt_d_shorter n tail)).
Qed.

Lemma bare_any n : paragon_parse_handle (Some (fmt_d n)) = clamp_ll n.
Proof.
  unfold paragon_parse_handle.
  rewrite <- (app_nil_r (fmt_d n)), strtoll_fmt_d_any by exact I.
  reflexivity.
Qed.

Lemma keyed_any wrapped key sep n :
  In key keys -> all_chars is_sep sep = true -> has_char dqc sep = false ->
  paragon_parse_handle (Some (keyed_reply wrapped key sep n)) = clamp_ll n.
Proof.
  intros Hk Hs Hq.
  unfold keys in Hk. cbn [map In] in Hk.
  destruct Hk as [<-|[<-|[<-|[<-|[<-|[<-|[<-|[<-|[]]]]]]]]]; destruct wrapped;
    unfold paragon_parse_handle, keyed_reply;
    cbn [String.append quoted dq];
    match goal with
    | |- context [strtoll ?t] => assert (strtoll t = (0, t)) as -> by reflexivity
    end;
    cbv beta iota; cbn [pass_loop Nat.eqb]; unfold keys; cbn [map];
    cbn [String.append quoted dq];
    pass_keys Hq;
    (erewrite (keyed_hit_any _ _ _ _ sep n);
     [ reflexivity
     | walk_text Hq; apply strstr_here; reflexivity
     | reflexivity
     | exact Hs
     | reflexivity ]).
Qed.

Lemma clamp_above n : LLONG_MAX <= n -> clamp_ll n = LLONG_MAX.
Proof.
  intros H. unfold clamp_ll.
  destruct (n <? LLONG_MIN) eqn:E1;
    [apply Z.ltb_lt in E1; unfold LLONG_MIN, LLONG_MAX in *; lia|].
  destruct (LLONG_MAX <? n) eqn:E2; [reflexivity|].
  apply Z.ltb_ge in E2. lia.
Qed.

Lemma clamp_below n : n <= LLONG_MIN -> clamp_ll n = LLONG_MIN.
Proof.
  intros H. unfold clamp_ll.
  destruct (n <? LLONG_MIN) eqn:E1; [reflexivity|].
  apply Z.ltb_ge in E1.
  destruct (LLONG_MAX <? n) eqn:E2;
    [apply Z.ltb_lt in E2; unfold LLONG_MIN, LLONG_MAX in *; lia|]. lia.
Qed.

Lemma handle_in_range (txt : option string) :
  LLONG_MIN <= paragon_parse_handle txt <= LLONG_MAX.
Proof.
  assert (LLONG_MIN <= -1 <= LLONG_MAX) as Hm1 by (unfold LLONG_MIN, LLONG_MAX; lia).
  destruct txt as [txt|]; [|exact Hm1]. unfold paragon_parse_handle.
  pose proof (strtoll_in_range txt) as Hs.
  destruct (strtoll txt) as [v e]. destruct e; [exact Hs|].
  cbn [pass_loop Nat.eqb].
  destruct (key_loop txt keys) as [n|] eqn:E0; [eapply key_loop_in_range; eauto|].
  destruct (strstr txt (quoted "result")) as [r|]; [|exact Hm1].
  destruct (key_loop r keys) as [n|] eqn:E1; [eapply key_loop_in_range; eauto|].
  exact Hm1.
Qed.

End Saturation.

(** X6.  The decoder does not notice a number that does not fit 64
    bits: a reply that writes an integer at or above [LLONG_MAX], bare
    or under a recognized key, decodes to [LLONG_MAX], and one at or
    below [LLONG_MIN] decodes to [LLONG_MIN]; it is neither wrapped
    around nor turned into the failure value -1.  So whatever the reply, the decoded handle lies
    between the two bounds. *)
Theorem X6_handle_saturates (wrapped : bool) (key sep : string) (n : Z) :
  In key keys -> all_chars is_sep sep = true -> has_char dqc sep = false ->
  (LLONG_MAX <= n ->
     paragon_parse_handle (Some (fmt_d n)) = LLONG_MAX
     /\ paragon_parse_handle (Some (keyed_reply wrapped key sep n)) = LLONG_MAX)
  /\ (n <= LLONG_MIN ->
     paragon_parse_handle (Some (fmt_d n)) = LLONG_MIN
     /\ paragon_parse_handle (Some (keyed_reply wrapped key sep n)) = LLONG_MIN)
  /\ (forall txt, LLONG_MIN <= paragon_parse_handle txt <= LLONG_MAX).
Proof.
  intros Hk Hs Hq.
  rewrite bare_any, (keyed_any wrapped key sep n Hk Hs Hq).
  split; [intros H; rewrite (clamp_above n H); now split|].
  split; [intros H; rewrite (clamp_below n H); now split|].
  apply handle_in_range.
Qed.

(** Twice [LLONG_MAX], bare and under [handle]. *)
Lemma X6_handle_saturates_witness :
  paragon_parse_handle (Some (fmt_d (2 * LLONG_MAX))) = LLONG_MAX
  /\ paragon_parse_handle
       (Some (keyed_reply false (quoted "handle") " " (2 * LLONG_MAX))) = LLONG_MAX.
Proof.
  refine (proj1 (X6_handle_saturates false (quoted "handle") " " (2 * LLONG_MAX)
                   _ eq_refl eq_refl) _).
  - left. reflexivity.
  - vm_compute. discriminate.
Defined.

(** ** The JSON builders *)

Section Builders.

Lemma concat_snoc sep l x :
  String.concat sep (l ++ [x])
  = String.concat sep l ++ (match l with [] => "" | _ => sep end) ++ x.
Proof.
  induction l as [|a l IH]; [reflexivity|].
  destruct l as [|b l].
  - cbn [List.app String.concat]. reflexivity.
  - change (String.concat sep ((a :: b :: l) ++ [x]))
      with (a ++ sep ++ String.concat sep ((b :: l) ++ [x])).
    rewrite IH.
    change (String.concat sep (a :: b :: l))
      with (a ++ sep ++ String.concat sep (b :: l)).
    now rewrite !app_assoc.
Qed.

(** A loop that appends item after item, with a comma before all but
    the first, builds the comma-separated row of the items. *)
Lemma join_loop (f : nat -> string) body n init :
  (forall i b, body i b = b ++ (if (i =? 0)%nat then "" else ",") ++ f i) ->
  for_loop 0 n body init = init ++ String.concat "," (map f (seq 0 n)).
Proof.
  intros Hbody. induction n as [|n IH].
  - cbn. now rewrite app_nil_r.
  - rewrite for_loop_S, IH, Hbody, seq_S, map_app.
    cbn [Nat.add map]. rewrite concat_snoc, app_assoc. f_equal. f_equal.
    destruct n; reflexivity.
Qed.

Lemma map_nth_seq {A B : Type} (g : A -> B) (d : A) l :
  map (fun i => g (nth i l d)) (seq 0 (List.length l)) = map g l.
Proof.
  induction l as [|a l IH]; [reflexivity|].
  cbn [List.length seq map nth]. f_equal.
  rewrite <- seq_shift, map_map. exact IH.
Qed.

Lemma json_layers_eq dims :
  json_layers dims (List.length dims) = json_list (map layer_text dims).
Proof.
  unfold json_layers, json_list, Gen.append.
  rewrite (join_loop (fun i => layer_text (nth i dims 0))).
  - rewrite map_nth_seq. reflexivity.
  - intros i b. destruct i; cbn [Nat.eqb]; unfold layer_text.
    + reflexivity.
    + now rewrite app_assoc.
Qed.

Lemma map_const_seq {B : Type} (x : B) lo n :
  map (fun _ => x) (seq lo n) = repeat x n.
Proof.
  revert lo. induction n as [|n IH]; intros lo; [reflexivity|].
  cbn [seq map repeat]. now rewrite IH.
Qed.

Lemma json_trainable_eq n : json_trainable n = json_list (repeat "true" n).
Proof.
  unfold json_trainable, json_list, Gen.append.
  rewrite (join_loop (fun _ => "true")).
  - rewrite map_const_seq. reflexivity.
  - intros i b. destruct i; reflexivity.
Qed.

(** The same piece appended [k] times. *)
Lemma repeat_loop piece lo k init :
  for_loop lo k (fun _ b => Gen.append b piece) init
  = init ++ String.concat "" (repeat piece k).
Proof.
  induction k as [|k IH].
  - cbn. now rewrite app_nil_r.
  - rewrite for_loop_S, IH. unfold Gen.append.
    cbn [repeat]. rewrite repeat_cons, concat_snoc, app_assoc. f_equal. f_equal.
    destruct k; reflexivity.
Qed.

Lemma concat_by_prefix sep x l :
  String.concat sep (x :: l) = x ++ String.concat "" (map (String.append sep) l).
Proof.
  revert x. induction l as [|y l IH]; intros x.
  - cbn. now rewrite app_nil_r.
  - change (String.concat sep (x :: y :: l)) with (x ++ sep ++ String.concat sep (y :: l)).
    rewrite IH. cbn [map]. destruct l as [|z l].
    + cbn. now rewrite !app_nil_r.
    + change (String.concat "" ((sep ++ y) :: map (String.append sep) (z :: l)))
        with ((sep ++ y) ++ "" ++ String.concat "" (map (String.append sep) (z :: l))).
      cbn [String.append]. now rewrite app_assoc.
Qed.

Lemma concat_empty_app a b :
  String.concat "" (a ++ b) = String.concat "" a ++ String.concat "" b.
Proof.
  induction a as [|x a IH]; [reflexivity|].
  destruct a as [|y a].
  - cbn [List.app]. destruct b as [|z b]; [cbn; now rewrite app_nil_r | reflexivity].
  - change (String.concat "" ((x :: y :: a) ++ b))
      with (x ++ "" ++ String.concat "" ((y :: a) ++ b)).
    rewrite IH.
    change (String.concat "" (x :: y :: a)) with (x ++ "" ++ String.concat "" (y :: a)).
    cbn [String.append]. now rewrite app_assoc.
Qed.

Lemma json_activs_eq n : json_activs n = json_list (activ_tags n).
Proof.
  unfold json_activs, json_list, activ_tags.
  rewrite repeat_loop. unfold Gen.append.
  replace (n - 1 - 1)%nat with (n - 2)%nat by lia.
  rewrite concat_by_prefix, map_app, concat_empty_app.
  rewrite map_repeat. cbn [map String.concat String.append].
  rewrite !app_assoc. cbn [String.append]. reflexivity.
Qed.

Lemma for_loop_sum (g : nat -> Z) lo k init :
  for_loop lo k (fun i p => p + g i) init
  = init + fold_right Z.add 0 (map g (seq lo k)).
Proof.
  induction k as [|k IH].
  - cbn. lia.
  - rewrite for_loop_S, IH, seq_S, map_app, fold_right_app.
    cbn [map fold_right].
    assert (forall l z, fold_right Z.add z l = fold_right Z.add 0 l + z) as H.
    { induction l as [|x l IHl]; intros z; cbn [fold_right]; [lia|].
      rewrite IHl. lia. }
    rewrite (H _ (g (lo + k)%nat + 0)). lia.
Qed.

Lemma params_of_dense dims : params_of dims (List.length dims) = dense_params dims.
Proof.
  unfold params_of. rewrite !for_loop_sum. rewrite Z.add_0_l.
  induction dims as [|a rest IH]; [reflexivity|].
  destruct rest as [|b r]; [reflexivity|].
  cbn [List.length Nat.sub] in *. rewrite Nat.sub_0_r in *.
  assert (dense_params (a :: b :: r) = (a + 1) * b + dense_params (b :: r)) as ->
    by reflexivity.
  rewrite <- IH. clear IH.
  cbn [seq map fold_right nth Nat.add].
  rewrite <- !seq_shift, !map_map. cbn [nth Nat.add].
  lia.
Qed.

Lemma sum_app (a b : list Z) :
  fold_right Z.add 0 (a ++ b) = fold_right Z.add 0 a + fold_right Z.add 0 b.
Proof. induction a as [|x a IH]; cbn [List.app fold_right]; lia. Qed.

Lemma sum_nonneg (g : nat -> Z) l :
  (forall i, 0 <= g i) -> 0 <= fold_right Z.add 0 (map g l).
Proof.
  intros Hg. induction l as [|x l IH]; cbn [map fold_right]; [lia|].
  specialize (Hg x). lia.
Qed.

(** With terms that are not negative, the sums grow with the loop. *)
Lemma sum_prefix_le (g : nat -> Z) lo k m :
  (forall i, 0 <= g i) -> (k <= m)%nat ->
  0 <= fold_right Z.add 0 (map g (seq lo k))
    <= fold_right Z.add 0 (map g (seq lo m)).
Proof.
  intros Hg Hkm. replace m with (k + (m - k))%nat by lia.
  rewrite seq_app, map_app, sum_app.
  pose proof (sum_nonneg g (seq lo k) Hg).
  pose proof (sum_nonneg g (seq (lo + k) (m - k)) Hg). lia.
Qed.

Lemma nth_nonneg (dims : list Z) hi i :
  Forall (fun d => 0 <= d <= hi) dims -> 0 <= nth i dims 0.
Proof.
  intros Hd. destruct (nth_in_or_default i dims 0) as [Hin | ->]; [|lia].
  rewrite Forall_forall in Hd. now apply Hd in Hin.
Qed.

End Builders.

(** X11. The three lists that describe a network are comma-separated
    rows in square brackets: one [Width]/[Height] object per layer
    width, in order; one [true] per layer; and the activation tags
    [linear], then [relu] for every inner layer, then [softmax].  The
    tags are as many as the layers only from two layers on: a shorter
    stack still gets the two tags [linear] and [softmax]. *)
Theorem X11_network_description (dims : list Z) (n : nat) :
  json_layers dims (List.length dims) = json_list (map layer_text dims)
  /\ json_trainable n = json_list (repeat "true" n)
  /\ json_activs n = json_list (activ_tags n)
  /\ List.length (activ_tags n) = Nat.max n 2.
Proof.
  split; [apply json_layers_eq|].
  split; [apply json_trainable_eq|].
  split; [apply json_activs_eq|].
  unfold activ_tags. cbn [List.length]. rewrite length_app, repeat_length.
  cbn [List.length]. lia.
Qed.

(** X12. For layer widths that are non-negative [int]s, the parameter
    count of [run_one] is the number of weights and biases of the
    dense stack, the sum of [(a + 1) * b] over the adjacent widths
    [a], [b]; when that number fits a [long long], no step of either
    loop leaves the range of [long long], and the printed estimate is
    four bytes per parameter, in MiB. *)
Theorem X12_parameter_count (dims : list Z) :
  Forall (fun d => 0 <= d <= 2147483647) dims ->
  dense_params dims <= LLONG_MAX ->
  let n := List.length dims in
  let products := fun k =>
    for_loop 0 k (fun i p => p + nth i dims 0 * nth (i + 1) dims 0) 0 in
  let biases := fun k =>
    for_loop 1 k (fun i p => p + nth i dims 0) (products (n - 1)%nat) in
  biases (n - 1)%nat = dense_params dims
  /\ Api.est_mb dims n = (Z2double (dense_params dims) * 4 / (1024 * 1024))%float
  /\ (forall k, (k <= n - 1)%nat ->
        0 <= products k <= LLONG_MAX /\ 0 <= biases k <= LLONG_MAX).
Proof.
  intros Hd Hfit n products biases.
  assert (Htot : biases (n - 1)%nat = dense_params dims)
    by exact (params_of_dense dims).
  split; [exact Htot|].
  split.
  { unfold Api.est_mb. fold (products (n - 1)%nat). fold (biases (n - 1)%nat).
    now rewrite Htot. }
  intros k Hk.
  assert (Hg1 : forall i, 0 <= nth i dims 0 * nth (i + 1) dims 0).
  { intros i. apply Z.mul_nonneg_nonneg; eapply nth_nonneg; exact Hd. }
  assert (Hg2 : forall i, 0 <= nth i dims 0).
  { intros i. eapply nth_nonneg; exact Hd. }
  pose proof (sum_prefix_le _ 0 k (n - 1) Hg1 Hk) as P1.
  pose proof (sum_prefix_le _ 1 k (n - 1) Hg2 Hk) as P2.
  pose proof (sum_nonneg _ (seq 0 (n - 1)) Hg1) as P3.
  unfold biases, products in Htot |- *.
  rewrite !for_loop_sum in Htot. repeat rewrite for_loop_sum. lia.
Qed.

Lemma X12_parameter_count_witness :
  params_of [784; 64; 10] 3 = 50890
  /\ Api.est_mb [784; 64; 10] 3
     = (Z2double 50890 * 4 / (1024 * 1024))%float.
Proof.
  assert (Hd : Forall (fun d => 0 <= d <= 2147483647) [784; 64; 10])
    by (repeat constructor; lia).
  assert (Hfit : dense_params [784; 64; 10] <= LLONG_MAX)
    by (vm_compute; discriminate).
  destruct (X12_parameter_count [784; 64; 10] Hd Hfit) as [H1 [H2 _]].
  split; [exact H1 | exact H2].
Defined.

(** ** The whole run *)

Section WholeRun.

Variable W : World.

(** Construction makes at most one call. *)
Lemma new_net_any_one_call api l a t g e st evs r st' :
  Api.paragon_new_net_any W api l a t g e st = (evs, Api.Done r st') ->
  (List.length evs <= 1)%nat.
Proof.
  intros H. pose proof (new_net_any_events W api l a t g e st) as E.
  rewrite H in E. cbn [fst] in E.
  destruct E as [->|[[f ->]|[[f ->]|[f [args ->]]]]]; cbn; lia.
Qed.

(** A table with the dispatcher, or without any constructor, lets
    every case return. *)
Lemma run_one_returns api id dims ndims st :
  Call api <> None \/ (New5 api = None /\ New3 api = None) ->
  exists evs r st',
    Api.run_one W api id dims ndims st = (evs, Api.Done r st')
    /\ (List.length evs <= 13)%nat
    /\ (Api.ticks st' <= 6 + Api.ticks st)%nat.
Proof.
  intros Hok.
  destruct (new_net_any_returns W api (json_layers dims ndims) (json_activs ndims)
              (json_trainable ndims) false false st) as (evs & newr & st1 & Hnew).
  pose proof (new_net_any_ticks W _ _ _ _ _ _ _ _ _ _ Hnew) as Ht.
  pose proof (new_net_any_one_call _ _ _ _ _ _ _ _ _ _ Hnew) as Hl.
  destruct (Z_le_gt_dec (paragon_parse_handle newr) 0) as [Hle|Hgt].
  { exists evs, (Api.ConstructionFailed newr), st1.
    split; [now apply run_one_rejects|]. lia. }
  destruct (Call api) as [f|] eqn:Hc.
  - destruct (run_one_reports_ticks W api id dims ndims st evs newr st1 f Hnew)
      as (r & st2 & Hrun & Ht2 & _); [lia | exact Hc |].
    exists (evs ++ case_calls f (paragon_parse_handle newr))%list, (Api.Reported r), st2.
    split; [exact Hrun|]. rewrite length_app. unfold case_calls.
    rewrite length_map. cbn [List.length]. lia.
  - exfalso. destruct Hok as [Hok|[H5 H3]]; [now apply Hok|].
    unfold Api.paragon_new_net_any in Hnew. rewrite H5, H3, Hc in Hnew.
    unfold Api.ret in Hnew. injection Hnew as _ <- _.
    cbn in Hgt. lia.
Qed.

Lemma run_cases_returns api cases st :
  Call api <> None \/ (New5 api = None /\ New3 api = None) ->
  exists evs rs st',
    Api.run_cases W api cases st = (evs, Api.Done rs st')
    /\ List.length rs = List.length cases
    /\ (List.length evs <= 13 * List.length cases)%nat
    /\ (Api.ticks st' <= 6 * List.length cases + Api.ticks st)%nat.
Proof.
  intros Hok. revert st. induction cases as [|[id dims] cases IH]; intros st.
  - exists [], [], st. cbn. repeat split; lia.
  - destruct (run_one_returns api id dims (List.length dims) st Hok)
      as (e1 & r & st1 & H1 & L1 & T1).
    destruct (IH st1) as (e2 & rs & st2 & H2 & Lr & L2 & T2).
    exists (e1 ++ e2)%list, (r :: rs), st2.
    cbn [Api.run_cases]. unfold Api.bind at 1. rewrite H1.
    unfold Api.bind at 1. rewrite H2. unfold Api.ret.
    rewrite List.app_nil_r. split; [reflexivity|].
    rewrite length_app. cbn [List.length]. lia.
Qed.

End WholeRun.

(** X14.  [main] runs to its end whenever the loaded table has the
    dispatcher, or has no constructor at all: it then returns 0 after
    its ten cases, having made at most thirteen library calls and six
    clock readings per case.  (In the remaining situation, a
    constructor without the dispatcher, a case with a usable handle
    does not return.) *)
Theorem X14_main_returns (W : World) (argv : list string) (st : Api.state W) :
  let api := snd (Api.paragon_load W (Api.so_of_argv argv)) in
  Call api <> None \/ (New5 api = None /\ New3 api = None) ->
  exists evs rs st',
    Api.main W argv st = (evs, Api.Done (0, rs) st')
    /\ List.length rs = 10%nat
    /\ (List.length evs <= 130)%nat
    /\ (Api.ticks st' <= 60 + Api.ticks st)%nat.
Proof.
  intros api Hok. unfold Api.main. subst api.
  destruct (Api.paragon_load W (Api.so_of_argv argv)) as [status api].
  cbn [snd] in Hok.
  destruct (run_cases_returns W api Api.suite st Hok)
    as (evs & rs & st' & Hrun & Lr & Le & Lt).
  exists evs, rs, st'. unfold Api.bind. rewrite Hrun. unfold Api.ret.
  rewrite List.app_nil_r. split; [reflexivity|].
  change (List.length Api.suite) with 10%nat in *. lia.
Qed.

(** The library with the 5-argument constructor and the dispatcher. *)
Lemma X14_main_returns_witness :
  exists evs rs st',
    Api.main Worlds.demo ["bench"; "libparagon.so"] (Worlds.start (O : lib_state Worlds.demo))
    = (evs, Api.Done (0, rs) st')
    /\ List.length rs = 10%nat
    /\ (List.length evs <= 130)%nat
    /\ (Api.ticks st' <= 60 + Api.ticks (Worlds.start (O : lib_state Worlds.demo)))%nat.
Proof.
  apply (X14_main_returns Worlds.demo ["bench"; "libparagon.so"]).
  left. discriminate.
Defined.
